(** * TorNetworkClient: the TOR session manager of torollama

    A shallow embedding of [src/tor-client.ts] (class [TorNetworkClient]):
    the constructor, [initialize], [request], [getStatus], [newCircuit],
    [checkConnection], [cleanup] and the private helpers they call.

    The client is asynchronous code over an external world: HTTP through
    node-fetch, the file system, a child process, timers and the clock.  The embedding runs one operation at a time in a state and
    exception monad.  The world's answers come from an environment [Env],
    which sees the history of interactions so far; every interaction is
    appended to that history, so "no network call" and "the same HTTP call"
    are statements about the history. *)

From Stdlib Require Import ZArith String Ascii List Bool Lia DecimalString.
From stdpp Require Import base option list strings.

Set Warnings "-register-all".

Local Open Scope string_scope.
Local Open Scope Z_scope.

(** ** JavaScript strings *)

Module Js.

(** [String.prototype.includes]. *)
Fixpoint includes (needle s : string) : bool :=
  String.prefix needle s ||
  match s with
  | EmptyString => false
  | String _ s' => includes needle s'
  end.

(** White space removed by [String.prototype.trim], on one-byte characters:
    TAB, LF, VT, FF, CR and SPACE. *)
Definition is_ws (c : ascii) : bool :=
  let n := N_of_ascii c in
  ((9 <=? n) && (n <=? 13) || (n =? 32))%N.

Fixpoint trimStart (s : string) : string :=
  match s with
  | EmptyString => EmptyString
  | String c s' => if is_ws c then trimStart s' else s
  end.

Fixpoint trimEnd (s : string) : string :=
  match s with
  | EmptyString => EmptyString
  | String c s' =>
      match trimEnd s' with
      | EmptyString => if is_ws c then EmptyString else String c EmptyString
      | t => String c t
      end
  end.

Definition trim (s : string) : string := trimEnd (trimStart s).

(** [s.split(sep)] for a one-character separator. *)
Fixpoint split (sep : ascii) (s : string) : list string :=
  match s with
  | EmptyString => [EmptyString]
  | String c s' =>
      if Ascii.eqb c sep then EmptyString :: split sep s'
      else match split sep s' with
           | h :: t => String c h :: t
           | [] => [String c EmptyString]
           end
  end.

(** [String(n)] for an integral number below 10^21 in size (from there on
    JavaScript prints a number with an exponent). *)
Definition string_of_Z (n : Z) : string :=
  NilZero.string_of_int (Z.to_int n).

(** ** JavaScript values that flow through the client

    Parsed JSON and [undefined].  Numbers are restricted to integers; the
    client only ever tests a number for truthiness or prints it. *)
Inductive value :=
| VUndefined
| VNull
| VBool (b : bool)
| VNum (n : Z)
| VStr (s : string)
| VArr (elems : list value)
| VObj (props : list (string * value)).

(** ToBoolean. *)
Definition truthy (v : value) : bool :=
  match v with
  | VUndefined | VNull => false
  | VBool b => b
  | VNum n => negb (n =? 0)%Z
  | VStr s => negb (String.eqb s "")
  | VArr _ | VObj _ => true
  end.

Fixpoint assoc (k : string) (props : list (string * value)) : value :=
  match props with
  | [] => VUndefined
  | (k', v) :: rest => if String.eqb k k' then v else assoc k rest
  end.

(** Errors are [Error] objects: a constructor name and a message.  (An
    error raised inside Node also has a [code], which Node prints in
    brackets after the name; the record has the two standard properties.) *)
Record Error := mkError { name : string; message : string }.

(** [`${error}`], that is [Error.prototype.toString]. *)
Definition toString (e : Error) : string :=
  if String.eqb (name e) "" then message e
  else if String.eqb (message e) "" then name e
  else name e +:+ ": " +:+ message e.

(** [v.k] for a property [k] that no prototype defines (here [IP] and
    [IsTor]): reading a property of [null] or [undefined] throws. *)
Definition getProp (v : value) (k : string) : Error + value :=
  match v with
  | VUndefined =>
      inl (mkError "TypeError" ("Cannot read properties of undefined (reading '" +:+ k +:+ "')"))
  | VNull =>
      inl (mkError "TypeError" ("Cannot read properties of null (reading '" +:+ k +:+ "')"))
  | VObj props => inr (assoc k props)
  | VBool _ | VNum _ | VStr _ | VArr _ => inr VUndefined
  end.

(** [`${v}`] for an optional number or string. *)
Definition show_num (v : option Z) : string :=
  match v with Some n => string_of_Z n | None => "undefined" end.

Definition show_str (v : option string) : string :=
  match v with Some s => s | None => "undefined" end.

End Js.

Import Js.

(** ** Configuration *)

(** [Partial<TorConfig>]: each property is absent ([None]), or present with
    a value that may itself be [undefined] ([Some None]). *)
Module Partial.
Record TorConfig := mk {
  socksPort : option (option Z);
  controlPort : option (option Z);
  torrcPath : option (option string);
  dataDirectory : option (option string);
  circuitBuildTimeout : option (option Z);
  newCircuitPeriod : option (option Z)
}.

(** The default argument [{}]. *)
Definition empty : TorConfig := mk None None None None None None.
End Partial.

(** The resolved configuration held in [this.config].  A property can be
    [undefined] at run time when the caller passed it so explicitly. *)
Record TorConfig := mkTorConfig {
  socksPort : option Z;
  controlPort : option Z;
  torrcPath : option string;
  dataDirectory : option string;
  circuitBuildTimeout : option Z;
  newCircuitPeriod : option Z
}.

(** [config.k]: an absent property reads as [undefined]. *)
Definition read {A} (p : option (option A)) : option A :=
  match p with Some v => v | None => None end.

(** [a ?? b]. *)
Definition nullish {A} (a : option A) (b : option A) : option A :=
  match a with Some x => Some x | None => b end.

(** [{ k: base, ...config }]: the spread overrides [base] exactly when
    [config] has the property, whatever its value. *)
Definition spread {A} (base : option A) (p : option (option A)) : option A :=
  match p with Some v => v | None => base end.

(** The object literal of the constructor:
    [{ socksPort: config.socksPort ?? 9050, ..., ...config }]. *)
Definition resolve_config (tmpdir : string) (join : string -> string -> string)
    (config : Partial.TorConfig) : TorConfig :=
  {| socksPort :=
       spread (nullish (read (Partial.socksPort config)) (Some 9050))
              (Partial.socksPort config);
     controlPort :=
       spread (nullish (read (Partial.controlPort config)) (Some 9051))
              (Partial.controlPort config);
     circuitBuildTimeout :=
       spread (nullish (read (Partial.circuitBuildTimeout config)) (Some 60))
              (Partial.circuitBuildTimeout config);
     newCircuitPeriod :=
       spread (nullish (read (Partial.newCircuitPeriod config)) (Some 30))
              (Partial.newCircuitPeriod config);
     torrcPath :=
       spread (nullish (read (Partial.torrcPath config)) None)
              (Partial.torrcPath config);
     dataDirectory :=
       spread (nullish (read (Partial.dataDirectory config))
                       (Some (join tmpdir "torollama-tor")))
              (Partial.dataDirectory config) |}.

(** ** The outside world *)

(** [new SocksProxyAgent(uri)]. *)
Record SocksProxyAgent := mkAgent { proxy : string }.

(** The handle returned by [child_process.spawn]. *)
Record ChildProcess := mkChild { spawnfile : string; spawnargs : list string }.

(** node-fetch's [RequestInit]: the properties a caller can pass through
    [request] besides the three that [TorRequestOptions] adds. *)
Module Init.
Record RequestInit := mk {
  method : option string;
  headers : option (list (string * string));
  body : option string;
  redirect : option string;
  follow : option Z;
  agent : option SocksProxyAgent
}.

(** The object literal [{}]. *)
Definition empty : RequestInit := mk None None None None None None.
End Init.

(** [interface TorRequestOptions extends RequestInit]. *)
Record TorRequestOptions := mkOptions {
  init : Init.RequestInit;
  timeout : option Z;
  followRedirects : option bool;
  maxRedirects : option Z
}.

(** [RequestInit & { timeout?: number }], the second argument of [fetch]. *)
Record FetchOptions := mkFetchOptions {
  fetch_init : Init.RequestInit;
  fetch_timeout : option Z
}.

(** A [Response]: its status and what [response.json()] settles to. *)
Record Response := mkResponse {
  status : Z;
  json : Error + value
}.

(** [response.ok]. *)
Definition ok (r : Response) : bool := (200 <=? status r) && (status r <=? 299).

(** Which handler settles the promise of [startTorDaemon] first. *)
Inductive DaemonStart :=
| Ready                      (* the captured output shows a readiness marker *)
| SpawnError (e : Error)     (* the 'error' event *)
| Exited (code : option Z)   (* the 'exit' event, before any marker *)
| NeverReady.                (* neither, for 60 s *)

(** Interactions with the world, in the order they happen. *)
Inductive Event :=
| EFetch (url : string) (options : FetchOptions)
| EMkdir (path : string)
| EWriteFile (path content : string)
| ESpawn (command : string) (args : list string)
| EKill (signal : string)
| ESleep (ms : Z)
| ELog (line : string).

Definition History := list Event.

(** The world's side of every interaction, as a function of the history. *)
Record Env := mkEnv {
  tmpdir : string;                                   (* os.tmpdir() *)
  join : string -> string -> string;                 (* path.join *)
  fetch : History -> string -> FetchOptions -> Error + Response;
  mkdir : History -> string -> option Error;
  writeFile : History -> string -> string -> option Error;
  spawn : History -> string -> list string -> DaemonStart;
  now : History -> Z                                 (* Date.now() *)
}.

(** ** The client's state *)

(** A [TorConnectionStatus] object.  [lastCircuitTime] holds a reference to a
    [Date] object, the only mutable object a status points to. *)
Record TorConnectionStatus := mkStatus {
  isConnected : value;
  circuitEstablished : value;
  currentIP : value;
  torVersion : value;
  circuitCount : value;
  lastCircuitTime : option nat
}.

#[global] Instance TorConnectionStatus_inhabited : Inhabited TorConnectionStatus :=
  populate (mkStatus VUndefined VUndefined VUndefined VUndefined VUndefined None).

(** The private fields of a [TorNetworkClient], the heap of status and
    [Date] objects (references are indices; objects are never freed), and the
    history of interactions. *)
Record State := mkState {
  config : TorConfig;
  agent : option SocksProxyAgent;
  torProcess : option ChildProcess;
  isInitialized : bool;
  connectionStatus : nat;
  statuses : list TorConnectionStatus;
  dates : list Z;
  history : History
}.

Definition set_agent (a : option SocksProxyAgent) (s : State) : State :=
  mkState (config s) a (torProcess s) (isInitialized s) (connectionStatus s)
          (statuses s) (dates s) (history s).
Definition set_torProcess (p : option ChildProcess) (s : State) : State :=
  mkState (config s) (agent s) p (isInitialized s) (connectionStatus s)
          (statuses s) (dates s) (history s).
Definition set_isInitialized (b : bool) (s : State) : State :=
  mkState (config s) (agent s) (torProcess s) b (connectionStatus s)
          (statuses s) (dates s) (history s).
Definition set_connectionStatus (r : nat) (s : State) : State :=
  mkState (config s) (agent s) (torProcess s) (isInitialized s) r
          (statuses s) (dates s) (history s).
Definition set_statuses (h : list TorConnectionStatus) (s : State) : State :=
  mkState (config s) (agent s) (torProcess s) (isInitialized s)
          (connectionStatus s) h (dates s) (history s).
Definition set_dates (h : list Z) (s : State) : State :=
  mkState (config s) (agent s) (torProcess s) (isInitialized s)
          (connectionStatus s) (statuses s) h (history s).
Definition record (e : Event) (s : State) : State :=
  mkState (config s) (agent s) (torProcess s) (isInitialized s)
          (connectionStatus s) (statuses s) (dates s) (history s ++ [e])%list.

(** The object [this.connectionStatus] refers to. *)
Definition status_of (s : State) : TorConnectionStatus :=
  statuses s !!! connectionStatus s.

(** Field updates of a status object. *)
Definition with_isConnected (v : value) (o : TorConnectionStatus) :=
  mkStatus v (circuitEstablished o) (currentIP o) (torVersion o)
           (circuitCount o) (lastCircuitTime o).
Definition with_circuitEstablished (v : value) (o : TorConnectionStatus) :=
  mkStatus (isConnected o) v (currentIP o) (torVersion o)
           (circuitCount o) (lastCircuitTime o).
Definition with_currentIP (v : value) (o : TorConnectionStatus) :=
  mkStatus (isConnected o) (circuitEstablished o) v (torVersion o)
           (circuitCount o) (lastCircuitTime o).
Definition with_torVersion (v : value) (o : TorConnectionStatus) :=
  mkStatus (isConnected o) (circuitEstablished o) (currentIP o) v
           (circuitCount o) (lastCircuitTime o).
Definition with_circuitCount (v : value) (o : TorConnectionStatus) :=
  mkStatus (isConnected o) (circuitEstablished o) (currentIP o) (torVersion o)
           v (lastCircuitTime o).
Definition with_lastCircuitTime (d : option nat) (o : TorConnectionStatus) :=
  mkStatus (isConnected o) (circuitEstablished o) (currentIP o) (torVersion o)
           (circuitCount o) d.

(** ** The monad: state and exceptions *)

Inductive Outcome (A : Type) :=
| Returned (a : A)
| Thrown (e : Error).
Arguments Returned {A} a.
Arguments Thrown {A} e.

Definition M (A : Type) : Type := State -> Outcome A * State.

Definition ret {A} (a : A) : M A := fun s => (Returned a, s).

Definition bind {A B} (m : M A) (k : A -> M B) : M B :=
  fun s => match m s with
           | (Returned a, s') => k a s'
           | (Thrown e, s') => (Thrown e, s')
           end.

Definition throw {A} (e : Error) : M A := fun s => (Thrown e, s).

(** [try { m } catch (error) { handler }]. *)
Definition try_catch {A} (m : M A) (handler : Error -> M A) : M A :=
  fun s => match m s with
           | (Returned a, s') => (Returned a, s')
           | (Thrown e, s') => handler e s'
           end.

Definition get : M State := fun s => (Returned s, s).

Definition modify (f : State -> State) : M unit := fun s => (Returned tt, f s).

Declare Scope js_scope.
Delimit Scope js_scope with js.
Notation "x <- m ; k" := (bind m (fun x => k))
  (at level 100, m at next level, right associativity) : js_scope.
Notation "m ;; k" := (bind m (fun _ => k))
  (at level 100, right associativity) : js_scope.
Local Open Scope js_scope.

(** [new Error(message)]. *)
Definition new_Error (message : string) : Error := mkError "Error" message.

(** [console.error(line)]. *)
Definition console_error (line : string) : M unit := modify (record (ELog line)).

(** [await new Promise(resolve => setTimeout(resolve, ms))]. *)
Definition sleep (ms : Z) : M unit := modify (record (ESleep ms)).

(** [this.connectionStatus.k = v]: an update in place of the object that
    [this.connectionStatus] refers to. *)
Definition assign_status (f : TorConnectionStatus -> TorConnectionStatus) : M unit :=
  modify (fun s => set_statuses (alter f (connectionStatus s) (statuses s)) s).

(** A fresh status object; returns its reference. *)
Definition alloc_status (o : TorConnectionStatus) : M nat :=
  fun s => (Returned (length (statuses s)), set_statuses (statuses s ++ [o])%list s).

Section Client.

Variable E : Env.

(** [new Date()]: a fresh [Date] object holding the current time. *)
Definition new_Date : M nat :=
  fun s => (Returned (length (dates s)),
            set_dates (dates s ++ [now E (history s)])%list s).

(** [await fetch(url, options)]. *)
Definition do_fetch (url : string) (options : FetchOptions) : M Response :=
  fun s =>
    let s' := record (EFetch url options) s in
    match fetch E (history s) url options with
    | inl e => (Thrown e, s')
    | inr response => (Returned response, s')
    end.

(** [await response.json()]. *)
Definition response_json (response : Response) : M value :=
  match json response with
  | inl e => throw e
  | inr data => ret data
  end.

(** [data.k]. *)
Definition prop (data : value) (k : string) : M value :=
  match getProp data k with
  | inl e => throw e
  | inr v => ret v
  end.

(** [!x] for an object reference or [null]. *)
Definition is_null {A} (x : option A) : bool :=
  match x with Some _ => false | None => true end.

Definition check_url : string := "https://check.torproject.org/api/ip".

(** *** [request] *)

(** The destructuring of [options] and the object literal built from it:
    [timeout], [followRedirects] and [maxRedirects] are taken out with their
    defaults, the rest is spread first, and [agent], [redirect] and
    [timeout] are set after it. *)
Definition requestOptions (this_agent : option SocksProxyAgent)
    (options : TorRequestOptions) : FetchOptions :=
  let timeout' := default 30000 (timeout options) in
  let followRedirects' := default true (followRedirects options) in
  let maxRedirects' := default 5 (maxRedirects options) in
  let fetchOptions := init options in
  {| fetch_init :=
       {| Init.method := Init.method fetchOptions;
          Init.headers := Init.headers fetchOptions;
          Init.body := Init.body fetchOptions;
          Init.follow := Init.follow fetchOptions;
          Init.agent := this_agent;
          Init.redirect := Some (if followRedirects' then "follow" else "manual") |};
     fetch_timeout := Some timeout' |}.

Definition request (url : string) (options : TorRequestOptions) : M Response :=
  s <- get;
  if negb (isInitialized s) || is_null (agent s) then
    throw (new_Error "TOR client not initialized")
  else
    let requestOptions := requestOptions (agent s) options in
    try_catch
      (response <- do_fetch url requestOptions;
       console_error ("[TorClient] "
                      +:+ default "GET" (Init.method (fetch_init requestOptions))
                      +:+ " " +:+ url +:+ " -> " +:+ string_of_Z (status response));;
       ret response)
      (fun error =>
         console_error ("[TorClient] Request failed: " +:+ toString error);;
         throw error).

(** The options [checkConnection] passes to [request]. *)
Definition check_options : TorRequestOptions :=
  mkOptions Init.empty (Some 10000) None None.

(** *** [checkConnection] *)
Definition checkConnection : M value :=
  try_catch
    (response <- request check_url check_options;
     if ok response then
       data <- response_json response;
       ip <- prop data "IP";
       assign_status (with_currentIP ip);;
       isTor <- prop data "IsTor";
       assign_status (with_isConnected isTor);;
       ret isTor
     else
       ret (VBool false))
    (fun error =>
       console_error ("[TorClient] Connection check failed: " +:+ toString error);;
       assign_status (with_isConnected (VBool false));;
       ret (VBool false)).

(** *** [sendControlCommand]

    The class is compiled as an ES module: the server's entry point reads
    [import.meta.url], and every import names its file with the [.js]
    extension.  In an ES module the identifier [require] is not bound, so
    evaluating [require('net')] throws a [ReferenceError] (Node's message
    goes on with a hint that names the file; the hint is left out here). *)
Definition require_is_not_defined : Error :=
  mkError "ReferenceError"
          "require is not defined in ES module scope, you can use import instead".

Definition require {A} (id : string) : M A := throw require_is_not_defined.

(** The promise executor starts with [const net = require('net')].  It
    throws there, the promise is rejected with that error, and the rest of
    the executor (the connection to [this.config.controlPort], its handlers
    and the 5000 ms timeout) is never run. *)
Definition sendControlCommand (command : string) : M string :=
  require "net".

(** *** [updateConnectionStatus] *)
Definition updateConnectionStatus : M unit :=
  try_catch
    (isConnected' <- checkConnection;
     s <- get;
     r <- alloc_status (with_circuitEstablished isConnected'
                          (with_isConnected isConnected' (status_of s)));
     modify (set_connectionStatus r);;
     if truthy isConnected' then
       try_catch
         (versionInfo <- sendControlCommand "GETINFO version";
          let versionPart := trim <$> (split "=" versionInfo !! 1%nat) in
          assign_status (with_torVersion
                           (match versionPart with
                            | Some v => VStr v
                            | None => VUndefined
                            end)))
         (fun _ => ret tt)
     else ret tt)
    (fun error =>
       assign_status (with_isConnected (VBool false));;
       assign_status (with_circuitEstablished (VBool false))).

(** *** [getStatus]: returns a reference to a new object
    [{ ...this.connectionStatus }]. *)
Definition getStatus : M nat :=
  updateConnectionStatus;;
  s <- get;
  alloc_status (status_of s).

(** *** [newCircuit] *)
Definition newCircuit : M bool :=
  try_catch
    (sendControlCommand "SIGNAL NEWNYM";;
     sleep 2000;;
     updateConnectionStatus;;
     d <- new_Date;
     assign_status (with_lastCircuitTime (Some d));;
     console_error "[TorClient] New TOR circuit established";;
     ret true)
    (fun error =>
       console_error ("[TorClient] Failed to create new circuit: " +:+ toString error);;
       ret false).

(** *** [cleanup] *)
Definition cleanup : M unit :=
  s <- get;
  (if is_null (torProcess s) then ret tt
   else modify (record (EKill "SIGTERM"));; modify (set_torProcess None));;
  modify (set_agent None);;
  modify (set_isInitialized false).

(** *** [checkExistingTorConnection] *)
Definition socks_uri (port : option Z) : string :=
  "socks5h://127.0.0.1:" +:+ show_num port.

(** [new SocksProxyAgent(`socks5h://127.0.0.1:${port}`)]: the agent parses
    its argument as a URL, and the parser accepts a port that is a decimal
    number from 0 to 65535.  For any other port, [undefined] included, the
    constructor throws. *)
Definition valid_port (port : option Z) : bool :=
  match port with
  | Some p => (0 <=? p) && (p <=? 65535)
  | None => false
  end.

Definition new_SocksProxyAgent (port : option Z) : M SocksProxyAgent :=
  if valid_port port then ret (mkAgent (socks_uri port))
  else throw (mkError "TypeError" "Invalid URL").

Definition checkExistingTorConnection : M value :=
  try_catch
    (s <- get;
     agent' <- new_SocksProxyAgent (socksPort (config s));
     response <- do_fetch check_url
                   {| fetch_init :=
                        {| Init.method := None; Init.headers := None;
                           Init.body := None; Init.redirect := None;
                           Init.follow := None; Init.agent := Some agent' |};
                      fetch_timeout := Some 5000 |};
     if ok response then
       data <- response_json response;
       prop data "IsTor"
     else
       ret (VBool false))
    (fun _ => ret (VBool false)).

(** *** [startTorDaemon] *)
Definition nl : string := String "010"%char EmptyString.
Definition dquote : string := String "034"%char EmptyString.

(** The fixed control-port password line of the generated torrc. *)
Definition hashed_password_line : string :=
  "HashedControlPassword 16:872860B76453A77D60CA2BB8C1A7042072093276A3D701AD684053EC4C".

(** The template literal [torrcContent]. *)
Definition torrcContent (c : TorConfig) : string :=
  nl +:+ "SocksPort " +:+ show_num (socksPort c)
  +:+ nl +:+ "ControlPort " +:+ show_num (controlPort c)
  +:+ nl +:+ "DataDirectory " +:+ show_str (dataDirectory c)
  +:+ nl +:+ "CircuitBuildTimeout " +:+ show_num (circuitBuildTimeout c)
  +:+ nl +:+ "NewCircuitPeriod " +:+ show_num (newCircuitPeriod c)
  +:+ nl +:+ "ExitNodes {us},{ca},{gb},{de},{fr},{nl},{se},{no},{dk}"
  +:+ nl +:+ "StrictNodes 0"
  +:+ nl +:+ "# Enable control port authentication"
  +:+ nl +:+ hashed_password_line
  +:+ nl +:+ "CookieAuthentication 1"
  +:+ nl +:+ "    ".

(** [await fs.mkdir(path, { recursive: true })]. *)
Definition fs_mkdir (path : string) : M unit :=
  fun s =>
    let s' := record (EMkdir path) s in
    match mkdir E (history s) path with
    | Some e => (Thrown e, s')
    | None => (Returned tt, s')
    end.

(** [await fs.writeFile(path, content)]. *)
Definition fs_writeFile (path content : string) : M unit :=
  fun s =>
    let s' := record (EWriteFile path content) s in
    match writeFile E (history s) path content with
    | Some e => (Thrown e, s')
    | None => (Returned tt, s')
    end.

(** [`${code}`] for an exit code, [null] when a signal ended the process. *)
Definition show_code (code : option Z) : string :=
  match code with Some n => string_of_Z n | None => "null" end.

(** The promise around [spawn('tor', ['-f', torrcPath])]: the process handle
    is stored at once; the promise then settles by the first of the
    readiness poll, the 'error' handler, the 'exit' handler with a code
    other than 0, and the 60 s timer.  An exit with code 0 before any marker
    rejects nothing, so the timer is what settles the promise. *)
Definition spawn_tor (torrcPath : string) : M unit :=
  fun s =>
    let args := ["-f"; torrcPath] in
    let s' := set_torProcess (Some (mkChild "tor" args))
                (record (ESpawn "tor" args) s) in
    match spawn E (history s) "tor" args with
    | Ready => (Returned tt, s')
    | SpawnError error =>
        (Thrown (new_Error ("Failed to start TOR: " +:+ message error)), s')
    | Exited code =>
        if bool_decide (code = Some 0) then
          (Thrown (new_Error "TOR startup timeout"), s')
        else
          (Thrown (new_Error ("TOR exited with code " +:+ show_code code)), s')
    | NeverReady => (Thrown (new_Error "TOR startup timeout"), s')
    end.

Definition startTorDaemon : M unit :=
  s <- get;
  match dataDirectory (config s) with
  | None =>
      (* fs.mkdir(undefined) *)
      throw (mkError "TypeError"
               ("The " +:+ dquote +:+ "path" +:+ dquote +:+
                " argument must be of type string or an instance of Buffer or URL. Received undefined"))
  | Some dir =>
      fs_mkdir dir;;
      let torrcPath := join E dir "torrc" in
      fs_writeFile torrcPath (trim (torrcContent (config s)));;
      spawn_tor torrcPath
  end.

(** *** [waitForTorConnection]: the loop, by the attempts that remain. *)
Fixpoint wait_attempts (remaining : nat) : M unit :=
  match remaining with
  | O => throw (new_Error "TOR connection timeout")
  | S remaining' =>
      connected <- try_catch
                     (existing <- checkExistingTorConnection; ret (truthy existing))
                     (fun _ => ret false);
      if connected then ret tt
      else sleep 2000;; wait_attempts remaining'
  end.

Definition waitForTorConnection : M unit := wait_attempts 30.

(** *** [initialize] *)
Definition initialize : M unit :=
  s <- get;
  if isInitialized s then ret tt
  else
    try_catch
      (existing <- checkExistingTorConnection;
       (if truthy existing then
          console_error "[TorClient] Using existing TOR connection"
        else
          startTorDaemon;;
          waitForTorConnection);;
       s <- get;
       agent' <- new_SocksProxyAgent (socksPort (config s));
       modify (set_agent (Some agent'));;
       updateConnectionStatus;;
       s <- get;
       if negb (truthy (isConnected (status_of s))) then
         throw (new_Error "Failed to establish TOR connection")
       else
         modify (set_isInitialized true);;
         console_error "[TorClient] TOR client initialized successfully")
      (fun error =>
         throw (new_Error ("TOR initialization failed: " +:+ toString error))).

(** *** The constructor

    A new client in a world with heap [statuses0], [dates0] and history
    [history0]: the field initialisers allocate the first status object. *)
Definition constructor (config : Partial.TorConfig)
    (statuses0 : list TorConnectionStatus) (dates0 : list Z)
    (history0 : History) : State :=
  {| config := resolve_config (tmpdir E) (join E) config;
     agent := None;
     torProcess := None;
     isInitialized := false;
     connectionStatus := length statuses0;
     statuses := (statuses0 ++
                  [mkStatus (VBool false) (VBool false)
                            VUndefined VUndefined VUndefined None])%list;
     dates := dates0;
     history := history0 |}.

End Client.

(** ** Sequences of calls on one client *)

(** The public methods. *)
Inductive Op :=
| OpInitialize
| OpRequest (url : string) (options : TorRequestOptions)
| OpGetStatus
| OpNewCircuit
| OpCheckConnection
| OpCleanup.

(** The state a computation leaves, and whether it returned or threw. *)
Definition after {A} (m : M A) (s : State) : State := snd (m s).

Definition returns {A} (m : M A) (s : State) : bool :=
  match fst (m s) with
  | Returned _ => true
  | Thrown _ => false
  end.

Definition call (E : Env) (o : Op) : State -> State :=
  match o with
  | OpInitialize => after (initialize E)
  | OpRequest url options => after (request E url options)
  | OpGetStatus => after (getStatus E)
  | OpNewCircuit => after (newCircuit E)
  | OpCheckConnection => after (checkConnection E)
  | OpCleanup => after cleanup
  end.

Fixpoint run (E : Env) (ops : list Op) (s : State) : State :=
  match ops with
  | [] => s
  | o :: ops' => run E ops' (call E o s)
  end.

(** Whether some [initialize()] of the sequence returned without throwing. *)
Fixpoint initialized_during (E : Env) (ops : list Op) (s : State) : bool :=
  match ops with
  | [] => false
  | o :: ops' =>
      match o with
      | OpInitialize => returns (initialize E) s
      | _ => false
      end || initialized_during E ops' (call E o s)
  end.

(** ** What a caller can do with the object [getStatus] returned *)

(** [r.k = v] for any property, and [r.lastCircuitTime.setTime(ms)]. *)
Inductive Mutation :=
| Assign (f : TorConnectionStatus -> TorConnectionStatus)
| SetTime (ms : Z).

Definition mutate (r : nat) (m : Mutation) (s : State) : State :=
  match m with
  | Assign f => set_statuses (alter f r (statuses s)) s
  | SetTime ms =>
      match lastCircuitTime (statuses s !!! r) with
      | Some d => set_dates (<[d := ms]> (dates s)) s
      | None => s          (* a TypeError in the caller *)
      end
  end.

(** Any number of such mutations, one after the other. *)
Fixpoint mutate_all (r : nat) (ms : list Mutation) (s : State) : State :=
  match ms with
  | [] => s
  | m :: ms' => mutate_all r ms' (mutate r m s)
  end.

(** What a reader of the client's own status sees: the properties of
    [this.connectionStatus], and the time held by the [Date] object that
    [lastCircuitTime] refers to. *)
Definition observe (s : State) : TorConnectionStatus * option Z :=
  (status_of s, d ← lastCircuitTime (status_of s); dates s !! d).

(** ** Predicates on states and computations *)

(** [keeps R m]: whatever [m] does, and whether it returns or throws, the
    state it leaves is related by [R] to the state it started in. *)
Definition keeps (R : State -> State -> Prop) {A} (m : M A) : Prop :=
  forall s, R s (snd (m s)).

(** The fields that only [initialize] and [cleanup] write. *)
Definition stable (s s' : State) : Prop :=
  isInitialized s' = isInitialized s /\ agent s' = agent s /\ config s' = config s.

(** The shape of the status heap: which object is the client's own, and how
    many objects there are. *)
Definition same_shape (s s' : State) : Prop :=
  connectionStatus s' = connectionStatus s /\
  length (statuses s') = length (statuses s).

(** [this.connectionStatus] refers to an allocated object. *)
Definition valid_ref (s : State) : Prop :=
  (connectionStatus s < length (statuses s))%nat.

(** Hoare triples with a postcondition for each way to finish. *)
Definition hoare {A} (P : State -> Prop) (m : M A)
    (Q : A -> State -> Prop) (X : Error -> State -> Prop) : Prop :=
  forall s, P s ->
    match m s with
    | (Returned a, s') => Q a s'
    | (Thrown e, s') => X e s'
    end.

Definition never_throws {A} (m : M A) : Prop :=
  hoare (fun _ => True) m (fun _ _ => True) (fun _ _ => False).

Definition uninitialized (s : State) : Prop := isInitialized s = false.

(** The guard of [request] passes. *)
Definition ready (s : State) : Prop :=
  isInitialized s = true /\ is_Some (agent s).

Definition not_initialized : Error := new_Error "TOR client not initialized".

(** The body of a response is a JSON object whose [IsTor] is [true]. *)
Definition IsTor_true (r : Response) : Prop :=
  exists props, json r = inr (VObj props) /\ assoc "IsTor" props = VBool true.

(** ** Properties the operations are checked against *)

(** [checkConnection], called in state [s] where the check endpoint answers
    with [r], returns [true] exactly when [r] says [IsTor: true]. *)
Definition checkConnection_reports_IsTor (E : Env) (s : State) (r : Response) : Prop :=
  fst (checkConnection E s) = Returned (VBool true) <-> IsTor_true r.

(** The state in which [newCircuit] refreshes the status: after the signal
    and the settle delay. *)
Definition after_signal (s : State) : State :=
  after (sleep 2000) (after (sendControlCommand "SIGNAL NEWNYM") s).

(** The connectivity request of that refresh throws. *)
Definition refresh_meets_error (E : Env) (s : State) : Prop :=
  exists e s', request E check_url check_options (after_signal s) = (Thrown e, s').

(** [newCircuit] returns [false] whenever the signal fails or the refresh
    meets an error. *)
Definition newCircuit_false_on_every_failure (E : Env) (s : State) : Prop :=
  returns (sendControlCommand "SIGNAL NEWNYM") s = false \/ refresh_meets_error E s ->
  fst (newCircuit E s) = Returned false.

(** Nothing a caller does to the object [r] that [getStatus] returned, or
    through it, changes what the client's own status shows. *)
Definition returned_status_independent (r : nat) (s : State) : Prop :=
  forall ms, observe (mutate_all r ms s) = observe s.

(** ** Concrete worlds *)
Module World.

Definition tor_reply : Response :=
  mkResponse 200 (inr (VObj [("IsTor", VBool true); ("IP", VStr "185.220.101.4")])).

(** A SOCKS port that no URL can name. *)
Definition no_port : Partial.TorConfig :=
  Partial.mk (Some (Some 70000)) None None None None None.

Definition refused : Error :=
  mkError "FetchError" "request to https://check.torproject.org/api/ip failed, reason: connect ECONNREFUSED 127.0.0.1:9050".

(** A daemon is already running and stays reachable. *)
Definition up : Env :=
  {| tmpdir := "/tmp";
     join := fun a b => a +:+ "/" +:+ b;
     fetch := fun _ _ _ => inr tor_reply;
     mkdir := fun _ _ => None;
     writeFile := fun _ _ _ => None;
     spawn := fun _ _ _ => Ready;
     now := fun _ => 1700000000000 |}.

(** Nothing listens on the SOCKS port and there is no tor binary. *)
Definition down : Env :=
  {| tmpdir := "/tmp";
     join := fun a b => a +:+ "/" +:+ b;
     fetch := fun _ _ _ => inl refused;
     mkdir := fun _ _ => None;
     writeFile := fun _ _ _ => None;
     spawn := fun _ _ _ => SpawnError (mkError "Error" "spawn tor ENOENT");
     now := fun _ => 1700000000000 |}.

(** A new client with the default configuration, alone in the world. *)
Definition fresh (E : Env) : State := constructor E Partial.empty [] [] [].

(** A state that passes the guard of [request], as [initialize] is written
    to leave it when it adopts a running daemon: the flag set, the agent
    bound to the SOCKS port, and a status that says connected. *)
Definition initialized (E : Env) : State :=
  {| config := config (fresh E);
     agent := Some (mkAgent (socks_uri (Some 9050)));
     torProcess := None;
     isInitialized := true;
     connectionStatus := 0;
     statuses := [mkStatus (VBool true) (VBool true) (VStr "185.220.101.4")
                           (VStr "0.4.8.12") VUndefined None];
     dates := [];
     history := [] |}.

End World.

(** ** More relations between the states before and after *)

(** The configuration is the same. *)
Definition same_config (s s' : State) : Prop := config s' = config s.

(** The heap is the same: only the client's fields outside it, and the
    history, may differ. *)
Definition same_heap (s s' : State) : Prop :=
  connectionStatus s' = connectionStatus s /\
  statuses s' = statuses s /\
  dates s' = dates s.

(** Every status object other than the client's own, and every [Date]
    object, is as it was; the client's own status is the same object or one
    allocated since. *)
Definition others_kept (s s' : State) : Prop :=
  (length (statuses s) <= length (statuses s'))%nat /\
  (connectionStatus s' = connectionStatus s \/
   (length (statuses s) <= connectionStatus s')%nat) /\
  (forall r, (r < length (statuses s))%nat -> r <> connectionStatus s ->
             statuses s' !! r = statuses s !! r) /\
  (exists more, dates s' = (dates s ++ more)%list).

(** The rotation timestamp of the client's status, and every [Date] object,
    are as they were. *)
Definition time_kept (s s' : State) : Prop :=
  lastCircuitTime (status_of s') = lastCircuitTime (status_of s) /\
  dates s' = dates s.

(** The version string of the client's status is as it was. *)
Definition version_kept (s s' : State) : Prop :=
  torVersion (status_of s') = torVersion (status_of s).

(** A reference that was valid is valid still. *)
Definition valid_kept (s s' : State) : Prop := valid_ref s -> valid_ref s'.

(** The step of [updateConnectionStatus] that replaces the status object. *)
Definition replace_status (v : value) (s : State) : State :=
  set_connectionStatus (length (statuses s))
    (set_statuses
       (statuses s ++ [with_circuitEstablished v (with_isConnected v (status_of s))])%list
       s).

(** What a refresh leaves when the guard of [request] stops its check: one
    log line, the flag cleared in the old status object, and a new status
    object that says not connected. *)
Definition blocked_refresh (s : State) : State :=
  replace_status (VBool false)
    (after (assign_status (with_isConnected (VBool false)))
       (record (ELog ("[TorClient] Connection check failed: "
                      +:+ toString not_initialized)) s)).

(** The options of the probe in [checkExistingTorConnection]. *)
Definition probe_options (c : TorConfig) : FetchOptions :=
  {| fetch_init :=
       {| Init.method := None; Init.headers := None;
          Init.body := None; Init.redirect := None;
          Init.follow := None;
          Init.agent := Some (mkAgent (socks_uri (socksPort c))) |};
     fetch_timeout := Some 5000 |}.

(** One round of [waitForTorConnection] that does not connect: the probe's
    request, when an agent could be made for the port, and the pause. *)
Definition failed_attempt (c : TorConfig) : list Event :=
  if valid_port (socksPort c) then
    [EFetch check_url (probe_options c); ESleep 2000]
  else [ESleep 2000].

Fixpoint failed_attempts (n : nat) (c : TorConfig) : list Event :=
  match n with
  | O => []
  | S n' => (failed_attempt c ++ failed_attempts n' c)%list
  end.

(** The state [s] with another history. *)
Definition with_history (h : History) (s : State) : State :=
  mkState (config s) (agent s) (torProcess s) (isInitialized s)
          (connectionStatus s) (statuses s) (dates s) h.

(** ** [TorTools]: what sits between the tool protocol and the client

    From [src/tor-tools.ts]: the parts of the tool handlers that compute
    without the network. *)
Module TorTools.

(** [getConnectionQuality(status)]. *)
Definition getConnectionQuality (status : TorConnectionStatus) : string :=
  if negb (truthy (isConnected status)) then "Poor (No connection)"
  else if negb (truthy (circuitEstablished status)) then "Fair (No circuit)"
  else if truthy (currentIP status) then "Good (Fully anonymous)"
  else "Unknown".

(** [interface OnionService]. *)
Record OnionService := mkService {
  name : string;
  url : string;
  description : string;
  category : string;
  verified : bool
}.

(** The field [knownOnionServices]. *)
Definition knownOnionServices : list OnionService :=
  [ mkService "DuckDuckGo"
      "https://duckduckgogg42xjoc72x3sjasowoarfbgcmvfimaftt6twagswzczad.onion"
      "Privacy-focused search engine" "search" true;
    mkService "Facebook"
      "https://facebookwkhpilnemxj7asaniu7vnjjbiltxjqhye3mhbshg7kx5tfyd.onion"
      "Social networking platform" "social" true;
    mkService "The New York Times"
      "https://nytimes3xbfgragh.onion"
      "News and journalism" "news" true;
    mkService "ProPublica"
      "https://p53lf57qovyuvwsc6xnrppddxpr23otqjb4a6d7vyb2ot2ouu7qd.onion"
      "Investigative journalism" "news" true;
    mkService "BBC News"
      "https://bbcnewsv2vjtpsuy.onion"
      "British news service" "news" true;
    mkService "Keybase"
      "https://keybase5wmilwokqirssclfnsqrjdsi7jdir5wy7y7iu3tanwmtp6oid.onion"
      "Secure messaging and file sharing" "communication" true;
    mkService "Privacy International"
      "https://privacyintyqcroe.onion"
      "Privacy rights organization" "privacy" true;
    mkService "SecureDrop"
      "https://secrdrop5wyphb5x.onion"
      "Secure document sharing for journalists" "security" true ].

(** [String.prototype.toLowerCase], on one-byte characters: only the
    letters A to Z change. *)
Definition lower (c : ascii) : ascii :=
  let n := N_of_ascii c in
  if ((65 <=? n) && (n <=? 90))%N then ascii_of_N (n + 32) else c.

Fixpoint toLowerCase (s : string) : string :=
  match s with
  | EmptyString => EmptyString
  | String c s' => String (lower c) (toLowerCase s')
  end.

(** The predicate of the [filter] in [searchOnionServices]. *)
Definition matches (searchTerm : string) (service : OnionService) : bool :=
  includes searchTerm (toLowerCase (name service)) ||
  includes searchTerm (toLowerCase (description service)) ||
  includes searchTerm (toLowerCase (category service)).

(** The constant [results] of [searchOnionServices], for a validated query
    and an integral limit:
    [knownOnionServices.filter(...).slice(0, limit)]. *)
Definition results (query : string) (limit : Z) : list OnionService :=
  let searchTerm := toLowerCase query in
  take (Z.to_nat limit) (List.filter (matches searchTerm) knownOnionServices).

(** The methods the schema of [makeRequest] admits. *)
Inductive Method := GET | POST | PUT | DELETE | PATCH.

Definition method_name (m : Method) : string :=
  match m with
  | GET => "GET" | POST => "POST" | PUT => "PUT"
  | DELETE => "DELETE" | PATCH => "PATCH"
  end.

(** [['POST', 'PUT', 'PATCH'].includes(method)]. *)
Definition takes_body (m : Method) : bool :=
  match m with
  | POST | PUT | PATCH => true
  | GET | DELETE => false
  end.

(** [obj[k]] and [obj[k] = v] on an object of string properties, kept as
    the list of its properties in insertion order. *)
Fixpoint header (k : string) (obj : list (string * string)) : option string :=
  match obj with
  | [] => None
  | (k', v) :: rest => if String.eqb k k' then Some v else header k rest
  end.

Fixpoint set_header (k v : string) (obj : list (string * string)) :
    list (string * string) :=
  match obj with
  | [] => [(k, v)]
  | (k', v') :: rest =>
      if String.eqb k k' then (k', v) :: rest else (k', v') :: set_header k v rest
  end.

(** [{ ...obj, ...more }]. *)
Definition spread_headers (obj more : list (string * string)) :
    list (string * string) :=
  fold_left (fun acc kv => set_header (fst kv) (snd kv) acc) more obj.

(** The [options] that [makeRequest] passes to [request], from the values
    its schema produced. *)
Definition makeRequest_options (method : Method)
    (headers : option (list (string * string))) (body : option string)
    (timeout_ms : Z) : TorRequestOptions :=
  let sent_headers :=
    spread_headers [("User-Agent", "TorOllama-MCP/1.0.0")] (default [] headers) in
  let options (sent_body : option string) :=
    mkOptions (Init.mk (Some (method_name method)) (Some sent_headers)
                       sent_body None None None)
              (Some timeout_ms) None None in
  match body with
  | Some b =>
      if negb (String.eqb b "") && takes_body method then options (Some b)
      else options None
  | None => options None
  end.

End TorTools.

(** In a status object, [circuitEstablished] holds what [isConnected]
    holds. *)
Definition settled (o : TorConnectionStatus) : Prop :=
  circuitEstablished o = isConnected o.

(** ** More concrete worlds *)
Module Scenario.

(** The daemon runs and its circuit leaves through another exit. *)
Definition other_exit_reply : Response :=
  mkResponse 200 (inr (VObj [("IsTor", VBool true); ("IP", VStr "199.249.230.7")])).

Definition other_exit : Env :=
  {| tmpdir := "/tmp";
     join := fun a b => a +:+ "/" +:+ b;
     fetch := fun _ _ _ => inr other_exit_reply;
     mkdir := fun _ _ => None;
     writeFile := fun _ _ _ => None;
     spawn := fun _ _ _ => Ready;
     now := fun _ => 1700000000000 |}.

End Scenario.


(** ** Frame reasoning *)

Section Frame.

Variable R : State -> State -> Prop.
Hypothesis R_refl : forall s, R s s.
Hypothesis R_trans : forall s1 s2 s3, R s1 s2 -> R s2 s3 -> R s1 s3.

Lemma keeps_ret {A} (a : A) : keeps R (ret a).
Proof. intros s. apply R_refl. Qed.

Lemma keeps_throw {A} (e : Error) : keeps R (@throw A e).
Proof. intros s. apply R_refl. Qed.

Lemma keeps_get : keeps R get.
Proof. intros s. apply R_refl. Qed.

Lemma keeps_modify (f : State -> State) :
  (forall s, R s (f s)) -> keeps R (modify f).
Proof. intros Hf s. apply Hf. Qed.

Lemma keeps_bind {A B} (m : M A) (k : A -> M B) :
  keeps R m -> (forall a, keeps R (k a)) -> keeps R (bind m k).
Proof.
  intros Hm Hk s. unfold bind. specialize (Hm s).
  destruct (m s) as [[a | e] s']; simpl in *; [| exact Hm].
  eapply R_trans; [exact Hm | apply Hk].
Qed.

Lemma keeps_try_catch {A} (m : M A) (h : Error -> M A) :
  keeps R m -> (forall e, keeps R (h e)) -> keeps R (try_catch m h).
Proof.
  intros Hm Hh s. unfold try_catch. specialize (Hm s).
  destruct (m s) as [[a | e] s']; simpl in *; [exact Hm |].
  eapply R_trans; [exact Hm | apply Hh].
Qed.

Lemma keeps_if {A} (b : bool) (m1 m2 : M A) :
  keeps R m1 -> keeps R m2 -> keeps R (if b then m1 else m2).
Proof. destruct b; auto. Qed.

End Frame.

Lemma stable_refl s : stable s s.
Proof. repeat split. Qed.

Lemma stable_trans s1 s2 s3 : stable s1 s2 -> stable s2 s3 -> stable s1 s3.
Proof. unfold stable. intros (?&?&?) (?&?&?). repeat split; congruence. Qed.

Lemma same_shape_refl s : same_shape s s.
Proof. split; reflexivity. Qed.

Lemma same_shape_trans s1 s2 s3 :
  same_shape s1 s2 -> same_shape s2 s3 -> same_shape s1 s3.
Proof. unfold same_shape. intros (?&?) (?&?). split; congruence. Qed.

Create HintDb frame.

(** Closes [keeps R m] for [m] built from the monad's combinators and from
    computations already in the hint database. *)
Ltac frame_by refl trans :=
  repeat
    match goal with
    | |- forall _, _ => intro
    | |- keeps _ (bind _ _) => apply (keeps_bind _ trans)
    | |- keeps _ (try_catch _ _) => apply (keeps_try_catch _ trans)
    | |- keeps _ (if _ then _ else _) => apply keeps_if
    | |- keeps _ (ret _) => apply (keeps_ret _ refl)
    | |- keeps _ (throw _) => apply (keeps_throw _ refl)
    | |- keeps _ get => apply (keeps_get _ refl)
    | |- keeps _ (modify _) => apply keeps_modify; intro; repeat split
    | |- keeps _ _ => solve [auto with frame]
    | |- keeps _ _ => progress cbv zeta
    end.

Ltac frame :=
  match goal with
  | |- keeps stable _ => frame_by stable_refl stable_trans
  | |- keeps same_shape _ => frame_by same_shape_refl same_shape_trans
  end.

Section FrameClient.

Variable E : Env.

Lemma stable_console_error line : keeps stable (console_error line).
Proof. unfold console_error. frame. Qed.

Lemma stable_sleep ms : keeps stable (sleep ms).
Proof. unfold sleep. frame. Qed.

Lemma stable_assign_status f : keeps stable (assign_status f).
Proof. unfold assign_status. frame. Qed.

Lemma stable_alloc_status o : keeps stable (alloc_status o).
Proof. intros s. repeat split. Qed.

Lemma stable_new_Date : keeps stable (new_Date E).
Proof. intros s. repeat split. Qed.

Lemma stable_do_fetch url options : keeps stable (do_fetch E url options).
Proof. intros s. unfold do_fetch. destruct (fetch _ _ _ _); repeat split. Qed.

Lemma stable_response_json r : keeps stable (response_json r).
Proof. unfold response_json. destruct (json r); frame. Qed.

Lemma stable_prop v k : keeps stable (prop v k).
Proof. unfold prop. destruct (getProp v k); frame. Qed.

Hint Resolve stable_console_error stable_sleep stable_assign_status
  stable_alloc_status stable_new_Date stable_do_fetch stable_response_json
  stable_prop : frame.

Lemma stable_request url options : keeps stable (request E url options).
Proof. unfold request. frame. Qed.
Hint Resolve stable_request : frame.

Lemma stable_checkConnection : keeps stable (checkConnection E).
Proof. unfold checkConnection. frame. Qed.
Hint Resolve stable_checkConnection : frame.

Lemma stable_sendControlCommand command : keeps stable (sendControlCommand command).
Proof. unfold sendControlCommand, require. frame. Qed.
Hint Resolve stable_sendControlCommand : frame.

Lemma stable_updateConnectionStatus : keeps stable (updateConnectionStatus E).
Proof. unfold updateConnectionStatus. frame. Qed.
Hint Resolve stable_updateConnectionStatus : frame.

Lemma stable_getStatus : keeps stable (getStatus E).
Proof. unfold getStatus. frame. Qed.

Lemma stable_newCircuit : keeps stable (newCircuit E).
Proof. unfold newCircuit. frame. Qed.

Lemma stable_new_SocksProxyAgent port : keeps stable (new_SocksProxyAgent port).
Proof. unfold new_SocksProxyAgent. frame. Qed.
Hint Resolve stable_new_SocksProxyAgent : frame.

Lemma stable_checkExistingTorConnection : keeps stable (checkExistingTorConnection E).
Proof. unfold checkExistingTorConnection. frame. Qed.
Hint Resolve stable_checkExistingTorConnection : frame.

Lemma stable_fs_mkdir path : keeps stable (fs_mkdir E path).
Proof. intros s. unfold fs_mkdir. destruct (mkdir _ _ _); repeat split. Qed.

Lemma stable_fs_writeFile path content : keeps stable (fs_writeFile E path content).
Proof. intros s. unfold fs_writeFile. destruct (writeFile _ _ _ _); repeat split. Qed.

Lemma stable_spawn_tor path : keeps stable (spawn_tor E path).
Proof.
  intros s. unfold spawn_tor.
  destruct (spawn _ _ _ _); try case_bool_decide; repeat split.
Qed.
Hint Resolve stable_fs_mkdir stable_fs_writeFile stable_spawn_tor : frame.

Lemma stable_startTorDaemon : keeps stable (startTorDaemon E).
Proof.
  unfold startTorDaemon. frame.
  destruct (dataDirectory (config a)); frame.
Qed.

Lemma stable_wait_attempts n : keeps stable (wait_attempts E n).
Proof. induction n as [| n IH]; simpl; frame. Qed.

Lemma stable_waitForTorConnection : keeps stable (waitForTorConnection E).
Proof. apply stable_wait_attempts. Qed.

(** The status heap keeps its shape through everything [checkConnection]
    and the control channel do. *)
Lemma shape_console_error line : keeps same_shape (console_error line).
Proof. unfold console_error. frame. Qed.

Lemma shape_assign_status f : keeps same_shape (assign_status f).
Proof.
  intros s. split; [reflexivity |]. simpl. apply length_alter.
Qed.

Lemma shape_do_fetch url options : keeps same_shape (do_fetch E url options).
Proof. intros s. unfold do_fetch. destruct (fetch _ _ _ _); split; reflexivity. Qed.

Lemma shape_response_json r : keeps same_shape (response_json r).
Proof. unfold response_json. destruct (json r); frame. Qed.

Lemma shape_prop v k : keeps same_shape (prop v k).
Proof. unfold prop. destruct (getProp v k); frame. Qed.

Hint Resolve shape_console_error shape_assign_status shape_do_fetch
  shape_response_json shape_prop : frame.

Lemma shape_request url options : keeps same_shape (request E url options).
Proof. unfold request. frame. Qed.
Hint Resolve shape_request : frame.

Lemma shape_checkConnection : keeps same_shape (checkConnection E).
Proof. unfold checkConnection. frame. Qed.

Lemma shape_sendControlCommand command :
  keeps same_shape (sendControlCommand command).
Proof. unfold sendControlCommand, require. frame. Qed.

End FrameClient.

#[local] Hint Resolve stable_console_error stable_sleep stable_assign_status
  stable_alloc_status stable_new_Date stable_do_fetch stable_response_json
  stable_prop stable_request stable_checkConnection stable_sendControlCommand
  stable_updateConnectionStatus stable_getStatus stable_newCircuit
  stable_new_SocksProxyAgent
  stable_checkExistingTorConnection stable_startTorDaemon
  stable_waitForTorConnection
  shape_console_error shape_assign_status shape_do_fetch shape_response_json
  shape_prop shape_request shape_checkConnection shape_sendControlCommand : frame.

(** ** Rules for the triples *)

Lemma hoare_ret {A} (P : State -> Prop) (a : A) Q X :
  (forall s, P s -> Q a s) -> hoare P (ret a) Q X.
Proof. intros H s Hs. simpl. auto. Qed.

Lemma hoare_throw {A} (P : State -> Prop) e (Q : A -> State -> Prop) X :
  (forall s, P s -> X e s) -> hoare P (throw e) Q X.
Proof. intros H s Hs. simpl. auto. Qed.

Lemma hoare_bind {A B} P (m : M A) (k : A -> M B) Q Q' X :
  hoare P m Q X -> (forall a, hoare (Q a) (k a) Q' X) -> hoare P (bind m k) Q' X.
Proof.
  intros Hm Hk s Hs. unfold bind. specialize (Hm s Hs).
  destruct (m s) as [[a | e] s']; [apply Hk; exact Hm | exact Hm].
Qed.

Lemma hoare_try_catch {A} P (m : M A) (h : Error -> M A) Q X X' :
  hoare P m Q X -> (forall e, hoare (X e) (h e) Q X') -> hoare P (try_catch m h) Q X'.
Proof.
  intros Hm Hh s Hs. unfold try_catch. specialize (Hm s Hs).
  destruct (m s) as [[a | e] s']; [exact Hm | apply Hh; exact Hm].
Qed.

Lemma hoare_conseq {A} (P P' : State -> Prop) (m : M A) (Q Q' : A -> State -> Prop)
    (X X' : Error -> State -> Prop) :
  hoare P' m Q' X' ->
  (forall s, P s -> P' s) ->
  (forall a s, Q' a s -> Q a s) ->
  (forall e s, X' e s -> X e s) ->
  hoare P m Q X.
Proof.
  intros Hm HP HQ HX s Hs. specialize (Hm s (HP s Hs)).
  destruct (m s) as [[a | e] s']; auto.
Qed.

(** A computation that keeps [R] carries over every property that [R]
    transports, however it finishes. *)
Lemma hoare_keeps {A} (R : State -> State -> Prop) (P I : State -> Prop) (m : M A) :
  keeps R m ->
  (forall s s', P s -> R s s' -> I s') ->
  hoare P m (fun _ => I) (fun _ => I).
Proof.
  intros Hm HI s Hs. specialize (Hm s).
  destruct (m s) as [[a | e] s']; simpl in Hm; eauto.
Qed.

Lemma hoare_get (P : State -> Prop) X :
  hoare P get (fun s0 s => s = s0 /\ P s) X.
Proof. intros s Hs. simpl. auto. Qed.

Lemma hoare_modify (P : State -> Prop) (f : State -> State) (Q : unit -> State -> Prop) X :
  (forall s, P s -> Q tt (f s)) -> hoare P (modify f) Q X.
Proof. intros H s Hs. simpl. auto. Qed.

Lemma hoare_any {A} (P : State -> Prop) (m : M A) :
  hoare P m (fun _ _ => True) (fun _ _ => True).
Proof. intros s _. destruct (m s) as [[a | e] s']; exact I. Qed.

(** ** What [initialize] establishes *)

Lemma hoare_stable_uninitialized {A} (m : M A) :
  keeps stable m ->
  hoare uninitialized m (fun _ => uninitialized) (fun _ => uninitialized).
Proof.
  intros Hm. apply (hoare_keeps stable); [exact Hm |].
  unfold uninitialized. intros s s' Hs (Hi & _). congruence.
Qed.

Lemma hoare_stable_agent {A} (m : M A) :
  keeps stable m ->
  hoare (fun s => uninitialized s /\ is_Some (agent s)) m
        (fun _ s => uninitialized s /\ is_Some (agent s))
        (fun _ => uninitialized).
Proof.
  intros Hm. eapply hoare_conseq.
  - apply (hoare_keeps stable (fun s => uninitialized s /\ is_Some (agent s))
             (fun s => uninitialized s /\ is_Some (agent s))); [exact Hm |].
    unfold uninitialized. intros s s' [Hs Ha] (Hi & Hag & _).
    split; congruence.
  - auto.
  - auto.
  - simpl. intros _ s [Hs _]. exact Hs.
Qed.

(** A first [initialize()] either returns, leaving the client ready, or
    throws, leaving it uninitialized. *)
Lemma initialize_fresh (E : Env) :
  hoare uninitialized (initialize E)
        (fun _ => ready) (fun _ => uninitialized).
Proof.
  unfold initialize.
  eapply hoare_bind; [apply hoare_get |]. intros s0.
  destruct (isInitialized s0) eqn:H0.
  { intros s [Heq Hs]. unfold uninitialized in Hs. congruence. }
  eapply hoare_try_catch with (X := fun _ => uninitialized).
  2:{ intros e. apply hoare_throw. auto. }
  eapply hoare_bind with (Q := fun _ => uninitialized).
  { eapply hoare_conseq;
      [apply hoare_stable_uninitialized, stable_checkExistingTorConnection
      | intros s [_ Hs]; exact Hs | auto | auto]. }
  intros existing.
  eapply hoare_bind with (Q := fun _ => uninitialized).
  { apply hoare_stable_uninitialized. destruct (truthy existing); frame. }
  intros ?.
  eapply hoare_bind; [apply hoare_get |]. intros s1.
  eapply hoare_bind with (Q := fun _ => uninitialized).
  { eapply hoare_conseq;
      [apply hoare_stable_uninitialized, stable_new_SocksProxyAgent
      | intros s [_ Hs]; exact Hs | auto | auto]. }
  intros agent'.
  eapply hoare_bind with (Q := fun _ s => uninitialized s /\ is_Some (agent s)).
  { apply hoare_modify. intros s Hs. split; [exact Hs | simpl; eauto]. }
  intros ?.
  eapply hoare_bind.
  { apply hoare_stable_agent, stable_updateConnectionStatus. }
  intros ?. simpl.
  eapply hoare_bind; [apply hoare_get |]. intros s2.
  destruct (negb (truthy (isConnected (status_of s2)))).
  { apply hoare_throw. intros s [_ [Hs _]]. exact Hs. }
  eapply hoare_bind with (Q := fun _ => ready).
  { apply hoare_modify. intros s [_ [_ Ha]]. split; [reflexivity | exact Ha]. }
  intros ?. intros s Hs. exact Hs.
Qed.

(** An [initialize()] that throws leaves the flag as it was. *)
Lemma initialize_throws_keeps_flag (E : Env) s e s' :
  initialize E s = (Thrown e, s') -> isInitialized s' = isInitialized s.
Proof.
  intros H. destruct (isInitialized s) eqn:Hs.
  - unfold initialize, bind, get in H. rewrite Hs in H. discriminate.
  - pose proof (initialize_fresh E s Hs) as Hf. rewrite H in Hf. exact Hf.
Qed.

(** An [initialize()] that returns leaves the flag set. *)
Lemma initialize_returns_sets_flag (E : Env) s u s' :
  initialize E s = (Returned u, s') -> isInitialized s' = true.
Proof.
  intros H. destruct (isInitialized s) eqn:Hs.
  - unfold initialize, bind, get in H. rewrite Hs in H.
    simpl in H. injection H as _ <-. exact Hs.
  - pose proof (initialize_fresh E s Hs) as Hf. rewrite H in Hf. apply Hf.
Qed.

Lemma cleanup_resets s :
  cleanup s = (Returned tt, after cleanup s) /\
  isInitialized (after cleanup s) = false /\
  agent (after cleanup s) = None /\
  torProcess (after cleanup s) = None.
Proof.
  unfold after, cleanup, bind, get, modify. simpl.
  destruct (torProcess s) eqn:Hp; simpl; repeat split; exact Hp.
Qed.

(** No call other than an [initialize()] that returns sets the flag. *)
Lemma call_keeps_uninitialized (E : Env) o s :
  isInitialized s = false ->
  match o with OpInitialize => returns (initialize E) s | _ => false end = false ->
  isInitialized (call E o s) = false.
Proof.
  intros Hs Ho. destruct o; simpl; unfold after.
  - unfold returns in Ho.
    destruct (initialize E s) as [[u | e] s'] eqn:Hi; simpl in *; [discriminate |].
    rewrite (initialize_throws_keeps_flag E _ _ _ Hi). exact Hs.
  - destruct (stable_request E url options s) as (H & _). congruence.
  - destruct (stable_getStatus E s) as (H & _). congruence.
  - destruct (stable_newCircuit E s) as (H & _). congruence.
  - destruct (stable_checkConnection E s) as (H & _). congruence.
  - apply cleanup_resets.
Qed.

Lemma run_keeps_uninitialized (E : Env) ops : forall s,
  isInitialized s = false ->
  initialized_during E ops s = false ->
  isInitialized (run E ops s) = false.
Proof.
  induction ops as [| o ops IH]; intros s Hs Hops; simpl in *; [exact Hs |].
  apply orb_false_iff in Hops as [Ho Hrest].
  apply IH; [apply call_keeps_uninitialized; assumption | exact Hrest].
Qed.

(** [request] on a client whose flag is not set: the guard throws before
    anything else happens. *)
Lemma request_uninitialized (E : Env) url options s :
  isInitialized s = false ->
  request E url options s = (Thrown not_initialized, s).
Proof. intros Hs. unfold request, bind, get. rewrite Hs. reflexivity. Qed.

(** ** Operations that never throw *)

Lemma hoare_shape_valid {A} (m : M A) :
  keeps same_shape m ->
  hoare valid_ref m (fun _ => valid_ref) (fun _ => valid_ref).
Proof.
  intros Hm. apply (hoare_keeps same_shape); [exact Hm |].
  unfold valid_ref. intros s s' Hs (Hr & Hl). rewrite Hr, Hl. exact Hs.
Qed.

Lemma checkConnection_never_throws (E : Env) : never_throws (checkConnection E).
Proof.
  unfold never_throws, checkConnection.
  eapply hoare_try_catch; [apply hoare_any |].
  intros e s _. exact I.
Qed.

(** [checkConnection] returns, whatever the state. *)
Lemma checkConnection_returns (E : Env) s :
  exists v, checkConnection E s = (Returned v, after (checkConnection E) s).
Proof.
  pose proof (checkConnection_never_throws E s I) as H. unfold after.
  destruct (checkConnection E s) as [[v | e] s']; [eauto | contradiction].
Qed.

(** [updateConnectionStatus] returns, and leaves [this.connectionStatus]
    referring to the object it allocated. *)
Lemma updateConnectionStatus_valid (E : Env) :
  hoare (fun _ => True) (updateConnectionStatus E)
        (fun _ => valid_ref) (fun _ _ => False).
Proof.
  unfold updateConnectionStatus.
  eapply hoare_try_catch with (X := fun _ _ => False).
  2:{ intros e s Hf. destruct Hf. }
  eapply hoare_bind; [apply checkConnection_never_throws |]. intros isConnected'.
  eapply hoare_bind; [apply hoare_get |]. intros s0.
  eapply hoare_bind with (Q := fun r s => (r < length (statuses s))%nat).
  { intros s _. simpl. rewrite length_app. simpl. lia. }
  intros r.
  eapply hoare_bind with (Q := fun _ => valid_ref).
  { apply hoare_modify. intros s Hs. exact Hs. }
  intros _.
  destruct (truthy isConnected').
  - eapply hoare_try_catch with (X := fun _ => valid_ref).
    + eapply hoare_bind.
      * apply hoare_shape_valid, shape_sendControlCommand.
      * intros versionInfo. simpl.
        eapply hoare_conseq;
          [apply hoare_shape_valid, shape_assign_status | auto..].
    + intros e. apply hoare_ret. auto.
  - apply hoare_ret. auto.
Qed.

Lemma updateConnectionStatus_returns (E : Env) s :
  updateConnectionStatus E s = (Returned tt, after (updateConnectionStatus E) s) /\
  valid_ref (after (updateConnectionStatus E) s).
Proof.
  pose proof (updateConnectionStatus_valid E s I) as H. unfold after.
  destruct (updateConnectionStatus E s) as [[[] | e] s']; [auto | contradiction].
Qed.

(** The version query of a refresh fails at [require] and its failure is
    swallowed, so a refresh is the connectivity check followed by the
    replacement of the status object. *)
Lemma updateConnectionStatus_unfold (E : Env) (s : State) :
  exists v,
    checkConnection E s = (Returned v, after (checkConnection E) s) /\
    updateConnectionStatus E s =
      (Returned tt, replace_status v (after (checkConnection E) s)).
Proof.
  destruct (checkConnection_returns E s) as [v Hc]. exists v. split; [exact Hc |].
  unfold updateConnectionStatus, try_catch. unfold bind at 1. rewrite Hc.
  unfold bind at 1, get. cbv beta iota.
  unfold bind at 1, alloc_status. cbv beta iota.
  unfold bind at 1, modify. cbv beta iota.
  destruct (truthy v); reflexivity.
Qed.

(** The control command of [newCircuit] fails at [require]; the handler
    logs the error and returns [false]. *)
Lemma newCircuit_fails (E : Env) (s : State) :
  newCircuit E s =
    (Returned false,
     record (ELog ("[TorClient] Failed to create new circuit: "
                   +:+ toString require_is_not_defined)) s).
Proof. reflexivity. Qed.

(** ** [initialize] cannot complete

    The verification step of [initialize] goes through
    [updateConnectionStatus], [checkConnection] and [request]; the guard of
    [request] still sees [isInitialized = false] there, so the probe is
    never sent, the status is refreshed to not-connected, and [initialize]
    throws. *)

Lemma checkConnection_uninitialized (E : Env) s :
  isInitialized s = false ->
  checkConnection E s =
    (Returned (VBool false),
     set_statuses (alter (with_isConnected (VBool false)) (connectionStatus s)
                         (statuses s))
       (record (ELog ("[TorClient] Connection check failed: "
                      +:+ toString not_initialized)) s)).
Proof.
  intros Hs. unfold checkConnection, try_catch, bind at 1.
  rewrite (request_uninitialized E _ _ s Hs). reflexivity.
Qed.

Lemma updateConnectionStatus_uninitialized (E : Env) s :
  isInitialized s = false ->
  exists s',
    updateConnectionStatus E s = (Returned tt, s') /\
    isInitialized s' = false /\
    history s' = (history s ++
                  [ELog ("[TorClient] Connection check failed: "
                         +:+ toString not_initialized)])%list /\
    isConnected (status_of s') = VBool false.
Proof.
  intros Hs. unfold updateConnectionStatus, try_catch, bind at 1.
  rewrite (checkConnection_uninitialized E s Hs). simpl.
  eexists. split; [reflexivity |]. split; [exact Hs |]. split; [reflexivity |].
  unfold status_of. simpl.
  rewrite list_lookup_total_middle by (rewrite length_alter; reflexivity).
  reflexivity.
Qed.

Lemma initialize_never_completes (E : Env) :
  hoare uninitialized (initialize E) (fun _ _ => False) (fun _ => uninitialized).
Proof.
  unfold initialize.
  eapply hoare_bind; [apply hoare_get |]. intros s0.
  destruct (isInitialized s0) eqn:H0.
  { intros s [Heq Hs]. unfold uninitialized in Hs. congruence. }
  eapply hoare_try_catch with (X := fun _ => uninitialized).
  2:{ intros e. apply hoare_throw. auto. }
  eapply hoare_bind with (Q := fun _ => uninitialized).
  { eapply hoare_conseq;
      [apply hoare_stable_uninitialized, stable_checkExistingTorConnection
      | intros s [_ Hs]; exact Hs | auto | auto]. }
  intros existing.
  eapply hoare_bind with (Q := fun _ => uninitialized).
  { apply hoare_stable_uninitialized. destruct (truthy existing); frame. }
  intros ?.
  eapply hoare_bind; [apply hoare_get |]. intros s1.
  eapply hoare_bind with (Q := fun _ => uninitialized).
  { eapply hoare_conseq;
      [apply hoare_stable_uninitialized, stable_new_SocksProxyAgent
      | intros s [_ Hs]; exact Hs | auto | auto]. }
  intros agent'.
  eapply hoare_bind with (Q := fun _ => uninitialized).
  { apply hoare_modify. intros s Hs. exact Hs. }
  intros ?.
  eapply hoare_bind with
    (Q := fun _ s => uninitialized s /\ isConnected (status_of s) = VBool false).
  { intros s Hs.
    destruct (updateConnectionStatus_uninitialized E s Hs) as (s' & -> & Hi & _ & Hc).
    split; assumption. }
  intros ?.
  eapply hoare_bind; [apply hoare_get |]. intros s2.
  intros s [-> [Hi Hc]]. rewrite Hc. simpl. exact Hi.
Qed.

(** From the constructor on, the flag is never set. *)
Lemma run_uninitialized (E : Env) ops : forall s,
  isInitialized s = false -> isInitialized (run E ops s) = false.
Proof.
  induction ops as [| o ops IH]; intros s Hs; simpl; [exact Hs |].
  apply IH. apply call_keeps_uninitialized; [exact Hs |].
  destruct o; try reflexivity.
  unfold returns. pose proof (initialize_never_completes E s Hs) as H.
  destruct (initialize E s) as [[u | e] s']; [contradiction | reflexivity].
Qed.

(** ** Strings *)

Lemma append_cons (x : ascii) (a b : string) :
  String x a +:+ b = String x (a +:+ b).
Proof. reflexivity. Qed.

Lemma append_nil (b : string) : EmptyString +:+ b = b.
Proof. reflexivity. Qed.

Lemma append_assoc (a b c : string) : (a +:+ b) +:+ c = a +:+ (b +:+ c).
Proof.
  induction a as [| x a IH]; [reflexivity |].
  rewrite !append_cons. f_equal. exact IH.
Qed.

Lemma prefix_append (n s : string) : String.prefix n (n +:+ s) = true.
Proof.
  induction n as [| x n IH]; [destruct s; reflexivity |].
  rewrite append_cons. simpl.
  destruct (ascii_dec x x); [exact IH | congruence].
Qed.

Lemma includes_unfold (n s : string) :
  includes n s =
  String.prefix n s ||
  match s with EmptyString => false | String _ s' => includes n s' end.
Proof. destruct s; reflexivity. Qed.

Lemma includes_here (n s : string) : includes n (n +:+ s) = true.
Proof. rewrite includes_unfold, prefix_append. reflexivity. Qed.

Lemma includes_append_r (a n s : string) :
  includes n s = true -> includes n (a +:+ s) = true.
Proof.
  intros H. induction a as [| x a IH]; [exact H |].
  rewrite append_cons. simpl. rewrite IH. apply orb_true_r.
Qed.

Lemma trimEnd_nonempty_append (a b : string) :
  trimEnd b <> EmptyString -> trimEnd (a +:+ b) <> EmptyString.
Proof.
  intros Hb. induction a as [| x a IH]; [exact Hb |].
  rewrite append_cons. simpl.
  destruct (trimEnd (a +:+ b)); [contradiction | discriminate].
Qed.

Lemma trimEnd_append (a b : string) :
  trimEnd b <> EmptyString -> trimEnd (a +:+ b) = a +:+ trimEnd b.
Proof.
  intros Hb. induction a as [| x a IH]; [reflexivity |].
  pose proof (trimEnd_nonempty_append a b Hb) as Hne.
  rewrite !append_cons. simpl.
  rewrite IH in *. destruct (a +:+ trimEnd b); [contradiction | reflexivity].
Qed.

(** [trimEnd] leaves a prefix alone when what follows it does not vanish. *)
Ltac trimEnd_nonempty :=
  first [ vm_compute; discriminate
        | apply trimEnd_nonempty_append; trimEnd_nonempty ].

Ltac peel_trimEnd :=
  match goal with
  | |- trimEnd (?a +:+ ?b) = ?a +:+ _ =>
      rewrite (trimEnd_append a b);
      [apply (f_equal (String.append a)); peel_trimEnd | trimEnd_nonempty]
  | |- _ => vm_compute; reflexivity
  end.

(** The generated file, whatever the configuration: the text before the
    password line, the line, and the cookie line. *)
Lemma torrc_file_shape (c : TorConfig) :
  exists head,
    trim (torrcContent c) =
    head +:+ hashed_password_line +:+ nl +:+ "CookieAuthentication 1".
Proof.
  exists ("SocksPort " +:+ show_num (socksPort c)
          +:+ nl +:+ "ControlPort " +:+ show_num (controlPort c)
          +:+ nl +:+ "DataDirectory " +:+ show_str (dataDirectory c)
          +:+ nl +:+ "CircuitBuildTimeout " +:+ show_num (circuitBuildTimeout c)
          +:+ nl +:+ "NewCircuitPeriod " +:+ show_num (newCircuitPeriod c)
          +:+ nl +:+ "ExitNodes {us},{ca},{gb},{de},{fr},{nl},{se},{no},{dk}"
          +:+ nl +:+ "StrictNodes 0"
          +:+ nl +:+ "# Enable control port authentication"
          +:+ nl).
  unfold trim, torrcContent.
  change (trimStart (nl +:+ "SocksPort " +:+ ?x)) with ("SocksPort " +:+ x).
  rewrite !append_assoc.
  peel_trimEnd.
Qed.

(** ** The constructor *)

(** C8 — For every partial configuration passed to the constructor, a
    property the caller omits takes its default (SOCKS port 9050, control
    port 9051, circuit-build timeout 60, new-circuit period 30, no torrc
    path, data directory [join(tmpdir(), 'torollama-tor')]), and a property
    the caller supplies is kept as supplied. *)
Theorem constructor_defaults (E : Env) (cfg : Partial.TorConfig)
    (st : list TorConnectionStatus) (d : list Z) (h : History) :
  let c := config (constructor E cfg st d h) in
  ((Partial.socksPort cfg = None -> socksPort c = Some 9050) /\
   (Partial.controlPort cfg = None -> controlPort c = Some 9051) /\
   (Partial.circuitBuildTimeout cfg = None -> circuitBuildTimeout c = Some 60) /\
   (Partial.newCircuitPeriod cfg = None -> newCircuitPeriod c = Some 30) /\
   (Partial.torrcPath cfg = None -> torrcPath c = None) /\
   (Partial.dataDirectory cfg = None ->
    dataDirectory c = Some (join E (tmpdir E) "torollama-tor"))) /\
  ((forall v, Partial.socksPort cfg = Some v -> socksPort c = v) /\
   (forall v, Partial.controlPort cfg = Some v -> controlPort c = v) /\
   (forall v, Partial.circuitBuildTimeout cfg = Some v -> circuitBuildTimeout c = v) /\
   (forall v, Partial.newCircuitPeriod cfg = Some v -> newCircuitPeriod c = v) /\
   (forall v, Partial.torrcPath cfg = Some v -> torrcPath c = v) /\
   (forall v, Partial.dataDirectory cfg = Some v -> dataDirectory c = v)).
Proof.
  destruct cfg as [sp cp tp dd cbt ncp]. simpl.
  split; repeat split; intros; subst; reflexivity.
Qed.

(** A caller who supplies only the SOCKS port keeps it and gets the default
    control port. *)
Lemma constructor_defaults_witness :
  let cfg := Partial.mk (Some (Some 9150)) None None None None None in
  let c := config (constructor World.up cfg [] [] []) in
  socksPort c = Some 9150 /\ controlPort c = Some 9051.
Proof.
  intros cfg c.
  destruct (constructor_defaults World.up cfg [] [] []) as [Hdefault Hkept].
  split.
  - apply (proj1 Hkept). reflexivity.
  - apply (proj1 (proj2 Hdefault)). reflexivity.
Defined.

(** ** The guard of [request] *)

(** C2 — On a client on which no [initialize()] has completed, [request]
    throws the not-initialized error for every target and every options
    value, and leaves the state and the history as they were: there is no
    network call. *)
Theorem request_before_initialize (E : Env) (cfg : Partial.TorConfig)
    (st : list TorConnectionStatus) (d : list Z) (h : History)
    (ops : list Op) (url : string) (options : TorRequestOptions) :
  let s := run E ops (constructor E cfg st d h) in
  initialized_during E ops (constructor E cfg st d h) = false ->
  request E url options s = (Thrown not_initialized, s).
Proof.
  intros s Hops. apply request_uninitialized.
  apply run_keeps_uninitialized; [reflexivity | exact Hops].
Qed.

(** After a failed [initialize()], a connection check and a circuit
    renewal, with nothing listening, a POST to a hidden service is refused
    by the guard. *)
Lemma request_before_initialize_witness :
  let ops := [OpInitialize; OpCheckConnection; OpNewCircuit] in
  let options := mkOptions (Init.mk (Some "POST") None (Some "q=1") None None None)
                           (Some 5000) (Some false) (Some 0) in
  let s := run World.down ops (World.fresh World.down) in
  initialized_during World.down ops (World.fresh World.down) = false /\
  request World.down "http://duckduckgogg42xjoc72x3sjasowoarfbgcmvfimaftt6twagswzczad.onion/"
          options s = (Thrown not_initialized, s).
Proof.
  intros ops options s. split.
  - vm_compute. reflexivity.
  - apply (request_before_initialize World.down Partial.empty [] [] [] ops).
    vm_compute. reflexivity.
Defined.

(** C10 — [cleanup] returns, resets the flag and releases the agent; from
    then on, and through any further calls among which no [initialize()]
    completes, [request] throws the not-initialized error for every target
    and options, without touching the state. *)
Theorem request_after_cleanup (E : Env) (s : State) (ops : list Op)
    (url : string) (options : TorRequestOptions) :
  let s1 := after cleanup s in
  initialized_during E ops s1 = false ->
  cleanup s = (Returned tt, s1) /\
  isInitialized s1 = false /\
  agent s1 = None /\
  request E url options (run E ops s1) = (Thrown not_initialized, run E ops s1).
Proof.
  intros s1 Hops.
  destruct (cleanup_resets s) as (Hc & Hi & Ha & _).
  repeat split; try assumption.
  apply request_uninitialized. apply run_keeps_uninitialized; assumption.
Qed.

Lemma request_after_cleanup_witness :
  let ops := [OpCheckConnection; OpGetStatus] in
  let s1 := after cleanup (World.initialized World.up) in
  isInitialized (World.initialized World.up) = true /\
  initialized_during World.up ops s1 = false /\
  request World.up check_url check_options (run World.up ops s1)
  = (Thrown not_initialized, run World.up ops s1).
Proof.
  intros ops s1. split; [reflexivity |]. split; [vm_compute; reflexivity |].
  apply (request_after_cleanup World.up (World.initialized World.up) ops).
  vm_compute. reflexivity.
Defined.

(** ** [initialize] *)

(** The guard at the top of [initialize]. *)
Lemma initialize_guard (E : Env) s :
  isInitialized s = true -> initialize E s = (Returned tt, s).
Proof. intros Hs. unfold initialize, bind, get. rewrite Hs. reflexivity. Qed.

(** C4 — On a client on which [initialize()] has returned, a second
    [initialize()] returns at once and leaves the client, the heap and the
    history exactly as they were: no probe, no file, no process. *)
Theorem initialize_idempotent (E : Env) (s0 s : State) (u : unit) :
  initialize E s0 = (Returned u, s) ->
  initialize E s = (Returned tt, s).
Proof.
  intros H. apply initialize_guard.
  exact (initialize_returns_sets_flag E s0 u s H).
Qed.

Lemma initialize_idempotent_witness :
  let s := World.initialized World.up in
  initialize World.up s = (Returned tt, s) /\
  initialize World.up (after (initialize World.up) s) = (Returned tt, s).
Proof.
  intros s. split; [reflexivity |].
  apply (initialize_idempotent World.up s s tt). reflexivity.
Defined.

(** ** [request] and its options *)

(** C9 — Two options values that differ only in [maxRedirects] make
    [request] behave identically: the same outcome, the same state, the same
    history, hence the same [fetch] call.  The redirect mode of the issued
    call is decided by [followRedirects] alone. *)
Theorem request_ignores_maxRedirects (E : Env) (url : string)
    (i : Init.RequestInit) (t : option Z) (f : option bool)
    (m1 m2 : option Z) (s : State) :
  request E url (mkOptions i t f m1) s = request E url (mkOptions i t f m2) s /\
  (forall (a : option SocksProxyAgent) (i' : Init.RequestInit) (t' : option Z),
     Init.redirect (fetch_init (requestOptions a (mkOptions i t f m1))) =
     Init.redirect (fetch_init (requestOptions a (mkOptions i' t' f m2)))).
Proof. split; reflexivity. Qed.

(** ** The generated daemon configuration *)

Lemma torrc_includes_password (c : TorConfig) :
  includes hashed_password_line (trim (torrcContent c)) = true.
Proof.
  destruct (torrc_file_shape c) as [head ->].
  apply includes_append_r, includes_here.
Qed.

(** C3 — Whenever [startTorDaemon] gets to write the torrc (the data
    directory is configured and could be created), the file it writes
    contains the fixed line [HashedControlPassword 16:8728...], whatever the
    configuration. *)
Theorem torrc_embeds_fixed_password (E : Env) (s : State) (dir : string) :
  dataDirectory (config s) = Some dir ->
  mkdir E (history s) dir = None ->
  exists content,
    In (EWriteFile (join E dir "torrc") content)
       (history (after (startTorDaemon E) s)) /\
    includes hashed_password_line content = true.
Proof.
  intros Hdir Hmk.
  exists (trim (torrcContent (config s))). split; [| apply torrc_includes_password].
  unfold after, startTorDaemon, bind, get. cbv beta iota. rewrite Hdir.
  unfold fs_mkdir. rewrite Hmk. cbv beta iota.
  set (w := EWriteFile _ _).
  assert (Hw : In w (history (record w (record (EMkdir dir) s)))).
  { simpl. apply in_or_app. right. left. reflexivity. }
  unfold fs_writeFile. fold w.
  destruct (writeFile E _ _ _); [exact Hw |].
  unfold spawn_tor.
  destruct (spawn E _ _ _); try case_bool_decide;
    simpl; apply in_or_app; left; exact Hw.
Qed.

Lemma torrc_embeds_fixed_password_witness :
  let s := World.fresh World.down in
  exists content,
    In (EWriteFile "/tmp/torollama-tor/torrc" content)
       (history (after (startTorDaemon World.down) s)) /\
    includes hashed_password_line content = true.
Proof.
  intros s.
  apply (torrc_embeds_fixed_password World.down s "/tmp/torollama-tor");
    reflexivity.
Defined.

(** ** [checkConnection] on a ready client *)

Lemma request_ready (E : Env) (url : string) (options : TorRequestOptions)
    (s : State) (r : Response) :
  ready s ->
  fetch E (history s) url (requestOptions (agent s) options) = inr r ->
  request E url options s =
    (Returned r,
     record (ELog ("[TorClient] "
                   +:+ default "GET" (Init.method (init options))
                   +:+ " " +:+ url +:+ " -> " +:+ string_of_Z (status r)))
       (record (EFetch url (requestOptions (agent s) options)) s)).
Proof.
  intros [Hi [a Ha]] Hf.
  unfold request, bind, get, try_catch, do_fetch. cbv beta iota zeta.
  rewrite Hi. replace (is_null (agent s)) with false by (rewrite Ha; reflexivity).
  cbn [negb orb]. cbv beta iota. rewrite Hf. reflexivity.
Qed.

Lemma request_refused (E : Env) (url : string) (options : TorRequestOptions)
    (s : State) (e : Error) :
  ready s ->
  fetch E (history s) url (requestOptions (agent s) options) = inl e ->
  request E url options s =
    (Thrown e,
     record (ELog ("[TorClient] Request failed: " +:+ toString e))
       (record (EFetch url (requestOptions (agent s) options)) s)).
Proof.
  intros [Hi [a Ha]] Hf.
  unfold request, bind, get, try_catch, do_fetch. cbv beta iota zeta.
  rewrite Hi. replace (is_null (agent s)) with false by (rewrite Ha; reflexivity).
  cbn [negb orb]. cbv beta iota. rewrite Hf. reflexivity.
Qed.

(** With a response that is not [ok], [checkConnection] returns [false]
    after the request, and writes nothing. *)
Lemma checkConnection_not_ok (E : Env) (s : State) (r : Response) :
  ready s ->
  fetch E (history s) check_url (requestOptions (agent s) check_options) = inr r ->
  ok r = false ->
  checkConnection E s =
    (Returned (VBool false),
     record (ELog ("[TorClient] GET " +:+ check_url +:+ " -> " +:+ string_of_Z (status r)))
       (record (EFetch check_url (requestOptions (agent s) check_options)) s)).
Proof.
  intros Hr Hf Hok. unfold checkConnection, try_catch, bind at 1.
  rewrite (request_ready E _ _ s r Hr Hf). cbv beta iota. rewrite Hok. reflexivity.
Qed.

(** With an [ok] response, [checkConnection] returns [true] exactly when the
    body is an object whose [IsTor] is [true]. *)
Lemma checkConnection_ok (E : Env) (s : State) (r : Response) :
  ready s ->
  fetch E (history s) check_url (requestOptions (agent s) check_options) = inr r ->
  ok r = true ->
  checkConnection_reports_IsTor E s r.
Proof.
  intros Hr Hf Hok. unfold checkConnection_reports_IsTor, IsTor_true.
  unfold checkConnection, try_catch, bind at 1.
  rewrite (request_ready E _ _ s r Hr Hf). cbv beta iota. rewrite Hok.
  unfold bind at 1, response_json.
  destruct (json r) as [e | data] eqn:Hj.
  { simpl. split; [discriminate | intros (props & Hp & _); discriminate]. }
  destruct data as [| | b | n | str | elems | props]; simpl;
    try (split; [discriminate | intros (props' & Hp & _); discriminate]).
  split.
  - intros H. exists props. split; [reflexivity | congruence].
  - intros (props' & Hp & Ht). congruence.
Qed.

(** The non-success path of [checkConnection] on a ready client: when the
    check endpoint answers with a status outside 200..299, [checkConnection]
    returns [false] and writes to no status object; only the [catch] path
    writes the flag. *)
Lemma checkConnection_not_ok_keeps_status (E : Env) (s : State) (r : Response) :
  ready s ->
  fetch E (history s) check_url (requestOptions (agent s) check_options) = inr r ->
  ok r = false ->
  fst (checkConnection E s) = Returned (VBool false) /\
  status_of (after (checkConnection E) s) = status_of s.
Proof.
  intros Hr Hf Hok. unfold after.
  rewrite (checkConnection_not_ok E s r Hr Hf Hok). split; reflexivity.
Qed.

(** A success response whose body has no [IsTor] is not a failure for
    [checkConnection]: it returns [undefined] and stores it in the flag. *)
Lemma checkConnection_body_without_IsTor :
  let E := {| tmpdir := tmpdir World.up; join := join World.up;
              fetch := fun _ _ _ => inr (mkResponse 200 (inr (VObj [])));
              mkdir := mkdir World.up;
              writeFile := writeFile World.up; spawn := spawn World.up;
              now := now World.up |} in
  let s := World.initialized E in
  fst (checkConnection E s) = Returned VUndefined /\
  isConnected (status_of (after (checkConnection E) s)) = VUndefined.
Proof. split; reflexivity. Qed.

(** C6 — On a ready client, that is after an [initialize()] that returned,
    for every response [r] that the check endpoint gives to the probe of
    [checkConnection]: when [r] has a success status, [checkConnection]
    returns [true] if and only if the body of [r] is an object whose [IsTor]
    is [true]; a response with any other status is a failed probe, and
    [checkConnection] returns [false]. *)
Theorem checkConnection_true_iff_IsTor (E : Env) (s : State) (r : Response) :
  ready s ->
  fetch E (history s) check_url (requestOptions (agent s) check_options) = inr r ->
  if ok r then checkConnection_reports_IsTor E s r
  else fst (checkConnection E s) = Returned (VBool false).
Proof.
  intros Hr Hf. destruct (ok r) eqn:Hok.
  - exact (checkConnection_ok E s r Hr Hf Hok).
  - rewrite (checkConnection_not_ok E s r Hr Hf Hok). reflexivity.
Qed.

Lemma checkConnection_true_iff_IsTor_witness :
  let E := World.up in
  let s := World.initialized E in
  IsTor_true World.tor_reply /\
  fst (checkConnection E s) = Returned (VBool true).
Proof.
  intros E s.
  assert (Ht : IsTor_true World.tor_reply) by (eexists; split; reflexivity).
  split; [exact Ht |].
  pose proof (checkConnection_true_iff_IsTor E s World.tor_reply) as H.
  simpl in H. apply H.
  - split; [reflexivity | eexists; reflexivity].
  - reflexivity.
  - exact Ht.
Defined.

(** ** [newCircuit] *)


(** ** [getStatus] *)

(** * Further properties of the client *)

(** ** [initialize] and the guard of [request], from a new client on *)

(** X1 — On a client whose flag is not set, [initialize()] always throws,
    whatever the world answers: the error is an [Error] whose message is
    [TOR initialization failed: ] followed by the cause, and the flag is
    still not set afterwards. *)
Theorem initialize_always_throws (E : Env) (s : State) :
  isInitialized s = false ->
  exists cause s',
    initialize E s =
      (Thrown (new_Error ("TOR initialization failed: " +:+ toString cause)), s') /\
    isInitialized s' = false.
Proof.
  intros Hs. pose proof (initialize_never_completes E s Hs) as H.
  assert (Hi : forall body handler,
             (s0 <- get; if isInitialized s0 then ret tt
                         else try_catch body handler) s
             = try_catch body handler s).
  { intros body handler. unfold bind at 1, get. cbv beta iota.
    rewrite Hs. reflexivity. }
  unfold initialize in *. rewrite Hi in *. clear Hi.
  unfold try_catch in *.
  destruct (bind (checkExistingTorConnection E) _ s) as [[u | e] s'].
  - destruct H.
  - exists e, s'. split; [reflexivity | exact H].
Qed.

Lemma initialize_always_throws_witness :
  exists cause s',
    initialize World.up (World.fresh World.up) =
      (Thrown (new_Error ("TOR initialization failed: " +:+ toString cause)), s') /\
    isInitialized s' = false.
Proof. apply (initialize_always_throws World.up (World.fresh World.up)). reflexivity. Defined.

(** X2 — Whatever public methods are called on a new client, in whatever
    order and whatever the world answers, [request] afterwards throws the
    not-initialized error and leaves state and history untouched. *)
Theorem request_never_passes_guard (E : Env) (cfg : Partial.TorConfig)
    (st : list TorConnectionStatus) (d : list Z) (h : History)
    (ops : list Op) (url : string) (options : TorRequestOptions) :
  request E url options (run E ops (constructor E cfg st d h)) =
    (Thrown not_initialized, run E ops (constructor E cfg st d h)).
Proof. apply request_uninitialized, run_uninitialized. reflexivity. Qed.

(** ** [cleanup] *)

Lemma cleanup_history (s : State) :
  history (after cleanup s) =
    (history s ++ if is_null (torProcess s) then [] else [EKill "SIGTERM"])%list.
Proof.
  unfold after, cleanup, bind, get, modify. cbv beta iota.
  destruct (torProcess s) as [p |]; simpl; [| rewrite app_nil_r]; reflexivity.
Qed.

(** X5 — [cleanup] sends [SIGTERM] exactly when the client holds a process
    handle, and a second [cleanup] right after the first changes nothing:
    no second signal, the same state. *)
Theorem cleanup_twice (s : State) :
  history (after cleanup s) =
    (history s ++ if is_null (torProcess s) then [] else [EKill "SIGTERM"])%list /\
  cleanup (after cleanup s) = (Returned tt, after cleanup s).
Proof.
  split; [apply cleanup_history |].
  unfold after, cleanup, bind, get, modify. cbv beta iota.
  destruct (torProcess s) as [p |] eqn:Hp; simpl.
  - reflexivity.
  - rewrite Hp. simpl. unfold set_isInitialized, set_agent. simpl. reflexivity.
Qed.

(** ** The probe for a running daemon *)

(** A port that the agent refuses: the probe ends in its [catch] before any
    request is sent. *)
Lemma checkExistingTorConnection_invalid (E : Env) (s : State) :
  valid_port (socksPort (config s)) = false ->
  checkExistingTorConnection E s = (Returned (VBool false), s).
Proof.
  intros Hp.
  unfold checkExistingTorConnection, try_catch, bind at 1, get. cbv beta iota.
  unfold bind at 1, new_SocksProxyAgent. rewrite Hp. reflexivity.
Qed.

(** With a port that the agent takes, the probe is one request. *)
Lemma checkExistingTorConnection_valid (E : Env) (s : State) :
  valid_port (socksPort (config s)) = true ->
  checkExistingTorConnection E s =
    try_catch
      (response <- do_fetch E check_url (probe_options (config s));
       if ok response then
         data <- response_json response;
         prop data "IsTor"
       else
         ret (VBool false))
      (fun _ => ret (VBool false)) s.
Proof.
  intros Hp.
  unfold checkExistingTorConnection, try_catch, bind at 1, get. cbv beta iota.
  unfold bind at 1, new_SocksProxyAgent. rewrite Hp. reflexivity.
Qed.

(** X6 — [checkExistingTorConnection] never throws.  When an agent can be
    made for the configured SOCKS port, it sends one request to the check
    endpoint, through that agent and with a 5000 ms timeout, and changes
    nothing else; when the port is one the agent refuses ([undefined], or a
    number outside 0..65535), it sends nothing and returns [false].  What it
    returns is truthy only if the request was sent and the endpoint answered
    it with a success status. *)
Theorem checkExistingTorConnection_probe (E : Env) (s : State) :
  exists v,
    checkExistingTorConnection E s =
      (Returned v,
       if valid_port (socksPort (config s))
       then record (EFetch check_url (probe_options (config s))) s
       else s) /\
    (truthy v = true ->
     valid_port (socksPort (config s)) = true /\
     exists r, fetch E (history s) check_url (probe_options (config s)) = inr r /\
               ok r = true).
Proof.
  destruct (valid_port (socksPort (config s))) eqn:Hp.
  2:{ exists (VBool false).
      split; [apply checkExistingTorConnection_invalid; exact Hp | discriminate]. }
  rewrite (checkExistingTorConnection_valid E s Hp).
  unfold try_catch, bind at 1, do_fetch.
  destruct (fetch E (history s) check_url (probe_options (config s)))
    as [e | r] eqn:Hf.
  { exists (VBool false). split; [reflexivity | discriminate]. }
  destruct (ok r) eqn:Hok.
  2:{ exists (VBool false). split; [reflexivity | discriminate]. }
  unfold bind, response_json. destruct (json r) as [e | data].
  { exists (VBool false). split; [reflexivity | discriminate]. }
  unfold prop, ret, throw. destruct (getProp data "IsTor") as [e | v].
  { exists (VBool false). split; [reflexivity | discriminate]. }
  exists v. split; [reflexivity |]. intros _.
  split; [reflexivity |]. exists r. split; [reflexivity | exact Hok].
Qed.

(** A running daemon is not found through a port that no URL can name. *)
Lemma checkExistingTorConnection_refused_port :
  let s := constructor World.up World.no_port [] [] [] in
  socksPort (config s) = Some 70000 /\
  checkExistingTorConnection World.up s = (Returned (VBool false), s).
Proof. split; reflexivity. Qed.

(** With such a port [initialize] takes the daemon path although a daemon
    is running: it spawns one, waits in vain and throws; the agent is never
    bound and nothing is requested from the network. *)
Lemma initialize_refused_port :
  let s := constructor World.up World.no_port [] [] [] in
  let s' := after (initialize World.up) s in
  fst (initialize World.up s) =
    Thrown (new_Error "TOR initialization failed: Error: TOR connection timeout") /\
  agent s' = None /\
  torProcess s' = Some (mkChild "tor" ["-f"; "/tmp/torollama-tor/torrc"]) /\
  forallb (fun e => match e with EFetch _ _ => false | _ => true end) (history s') = true.
Proof. vm_compute. repeat split. Qed.

(** ** [waitForTorConnection] *)

Lemma with_history_same (s : State) : with_history (history s) s = s.
Proof. destruct s; reflexivity. Qed.

Lemma checkExistingTorConnection_refused (E : Env) (s : State) (e : Error) :
  valid_port (socksPort (config s)) = true ->
  fetch E (history s) check_url (probe_options (config s)) = inl e ->
  checkExistingTorConnection E s =
    (Returned (VBool false), record (EFetch check_url (probe_options (config s))) s).
Proof.
  intros Hp Hf. rewrite (checkExistingTorConnection_valid E s Hp).
  unfold try_catch, bind at 1, do_fetch. rewrite Hf. reflexivity.
Qed.

Lemma wait_attempts_exhausted (E : Env) (c : TorConfig) :
  (forall h, exists e, fetch E h check_url (probe_options c) = inl e) ->
  forall n s, config s = c ->
    wait_attempts E n s =
      (Thrown (new_Error "TOR connection timeout"),
       with_history (history s ++ failed_attempts n c)%list s).
Proof.
  intros Hdown. induction n as [| n IH]; intros s Hc.
  - simpl. rewrite app_nil_r, with_history_same. reflexivity.
  - cbn [wait_attempts failed_attempts]. unfold bind at 1, try_catch, bind at 1.
    unfold failed_attempt.
    destruct (valid_port (socksPort c)) eqn:Hp.
    + destruct (Hdown (history s)) as [e He]. rewrite <- Hc in He, Hp.
      rewrite (checkExistingTorConnection_refused E s e Hp He).
      cbn [ret truthy]. unfold bind at 1, sleep, modify.
      rewrite IH by exact Hc. f_equal.
      unfold with_history, record. cbn. rewrite Hc.
      rewrite <- !app_assoc. reflexivity.
    + rewrite <- Hc in Hp.
      rewrite (checkExistingTorConnection_invalid E s Hp).
      cbn [ret truthy]. unfold bind at 1, sleep, modify.
      rewrite IH by exact Hc. f_equal.
      unfold with_history, record. cbn.
      rewrite <- !app_assoc. reflexivity.
Qed.

Lemma length_failed_attempts (n : nat) (c : TorConfig) :
  length (failed_attempts n c) = (n * length (failed_attempt c))%nat.
Proof.
  induction n as [| n IH]; [reflexivity |].
  cbn [failed_attempts]. rewrite length_app, IH. reflexivity.
Qed.

(** X7 — While no probe gets through, [waitForTorConnection] makes 30
    attempts, each followed by a 2000 ms sleep, then throws [TOR connection
    timeout]; nothing but the history changes.  An attempt is one request
    when an agent can be made for the SOCKS port, and no request at all
    when the port is one the agent refuses. *)
Theorem waitForTorConnection_gives_up (E : Env) (s : State) :
  (forall h, exists e, fetch E h check_url (probe_options (config s)) = inl e) ->
  waitForTorConnection E s =
    (Thrown (new_Error "TOR connection timeout"),
     with_history (history s ++ failed_attempts 30 (config s))%list s) /\
  length (failed_attempts 30 (config s)) =
    (if valid_port (socksPort (config s)) then 60 else 30)%nat.
Proof.
  intros Hdown. split.
  - apply wait_attempts_exhausted; [exact Hdown | reflexivity].
  - rewrite length_failed_attempts. unfold failed_attempt.
    destruct (valid_port (socksPort (config s))); reflexivity.
Qed.

Lemma waitForTorConnection_gives_up_witness :
  let E := World.down in
  let s := World.fresh E in
  waitForTorConnection E s =
    (Thrown (new_Error "TOR connection timeout"),
     with_history (history s ++ failed_attempts 30 (config s))%list s) /\
  length (failed_attempts 30 (config s)) = 60%nat.
Proof.
  intros E s. apply (waitForTorConnection_gives_up E s).
  intros h. eexists. reflexivity.
Defined.

(** ** [startTorDaemon] *)

(** X8 — A client constructed with [dataDirectory: undefined] written out
    has no data directory, and [startTorDaemon] on it throws a [TypeError]
    before it touches the file system or spawns anything. *)
Theorem startTorDaemon_without_data_directory (E : Env) (cfg : Partial.TorConfig)
    (st : list TorConnectionStatus) (d : list Z) (h : History) :
  Partial.dataDirectory cfg = Some None ->
  let s := constructor E cfg st d h in
  exists msg, startTorDaemon E s = (Thrown (mkError "TypeError" msg), s).
Proof.
  intros Hd s. unfold startTorDaemon, bind, get. cbv beta iota.
  replace (dataDirectory (config s)) with (@None string).
  - eexists. reflexivity.
  - unfold s. simpl. rewrite Hd. reflexivity.
Qed.

Lemma startTorDaemon_without_data_directory_witness :
  let cfg := Partial.mk None None None (Some None) None None in
  let s := constructor World.down cfg [] [] [] in
  exists msg, startTorDaemon World.down s = (Thrown (mkError "TypeError" msg), s).
Proof.
  intros cfg s.
  apply (startTorDaemon_without_data_directory World.down cfg [] [] []).
  reflexivity.
Defined.

(** X9 — When the data directory cannot be created, or the torrc cannot be
    written, [startTorDaemon] throws that very error; it spawns no process
    and leaves every field of the client as it was. *)
Theorem startTorDaemon_fs_failure (E : Env) (s : State) (dir : string) (e : Error) :
  dataDirectory (config s) = Some dir ->
  mkdir E (history s) dir = Some e \/
  (mkdir E (history s) dir = None /\
   writeFile E (history s ++ [EMkdir dir])%list (join E dir "torrc")
             (trim (torrcContent (config s))) = Some e) ->
  exists events,
    startTorDaemon E s = (Thrown e, with_history (history s ++ events)%list s) /\
    forall command args, ~ In (ESpawn command args) events.
Proof.
  intros Hdir Hfs. unfold startTorDaemon, bind at 1, get. cbv beta iota.
  rewrite Hdir. unfold bind at 1, fs_mkdir.
  destruct Hfs as [Hm | [Hm Hw]]; rewrite Hm.
  - exists [EMkdir dir]. split; [reflexivity |].
    intros c a [H | []]. discriminate.
  - unfold bind at 1, fs_writeFile. cbn [history record]. rewrite Hw.
    exists [EMkdir dir; EWriteFile (join E dir "torrc") (trim (torrcContent (config s)))].
    split.
    + unfold with_history, record. cbn. rewrite <- app_assoc. reflexivity.
    + intros c a [H | [H | []]]; discriminate.
Qed.

Lemma startTorDaemon_fs_failure_witness :
  let denied := mkError "Error" "EACCES: permission denied, mkdir '/tmp/torollama-tor'" in
  let E := {| tmpdir := tmpdir World.down; join := join World.down;
              fetch := fetch World.down;
              mkdir := fun _ _ => Some denied;
              writeFile := writeFile World.down; spawn := spawn World.down;
              now := now World.down |} in
  let s := World.fresh E in
  exists events,
    startTorDaemon E s = (Thrown denied, with_history (history s ++ events)%list s) /\
    forall command args, ~ In (ESpawn command args) events.
Proof.
  intros denied E s.
  apply (startTorDaemon_fs_failure E s "/tmp/torollama-tor" denied).
  - reflexivity.
  - left. reflexivity.
Defined.



(** ** [request] on a ready client *)

(** X11 — On a ready client [request] makes exactly one [fetch], through
    the client's own agent whatever agent the caller put in the options,
    writes one log line, and hands on what [fetch] gave: the response as it
    is, or the very error, without a retry. *)
Theorem request_single_fetch (E : Env) (url : string)
    (options : TorRequestOptions) (s : State) :
  ready s ->
  let issued := requestOptions (agent s) options in
  (exists line,
     after (request E url options) s = record (ELog line) (record (EFetch url issued) s)) /\
  fst (request E url options s) =
    match fetch E (history s) url issued with
    | inl e => Thrown e
    | inr r => Returned r
    end /\
  Init.agent (fetch_init issued) = agent s.
Proof.
  intros Hr issued. unfold after.
  destruct (fetch E (history s) url issued) as [e | r] eqn:Hf.
  - rewrite (request_refused E url options s e Hr Hf).
    split; [eexists; reflexivity | split; reflexivity].
  - rewrite (request_ready E url options s r Hr Hf).
    split; [eexists; reflexivity | split; reflexivity].
Qed.

Lemma request_single_fetch_witness :
  let E := World.up in
  let s := World.initialized E in
  let options := mkOptions (Init.mk None None None (Some "manual") None
                                     (Some (mkAgent "socks5h://10.0.0.1:1080")))
                           None None None in
  fst (request E check_url options s) = Returned World.tor_reply /\
  Init.agent (fetch_init (requestOptions (agent s) options)) = agent s.
Proof.
  intros E s options.
  destruct (request_single_fetch E check_url options s) as (_ & Hres & Hag).
  - split; [reflexivity | eexists; reflexivity].
  - split; [exact Hres | exact Hag].
Defined.

(** ** What [checkConnection] writes *)

(** X12 — On a ready client, when the check request fails in the network,
    or the body of a success response cannot be parsed, [checkConnection]
    returns [false] and sets [isConnected] to [false]; every other property
    of the status, [currentIP] included, keeps its old value. *)
Theorem checkConnection_failure_clears_flag (E : Env) (s : State) (e : Error) :
  ready s -> valid_ref s ->
  let issued := requestOptions (agent s) check_options in
  fetch E (history s) check_url issued = inl e \/
  (exists r, fetch E (history s) check_url issued = inr r /\
             ok r = true /\ json r = inl e) ->
  fst (checkConnection E s) = Returned (VBool false) /\
  status_of (after (checkConnection E) s) = with_isConnected (VBool false) (status_of s).
Proof.
  intros Hr Hv issued Hfail. unfold after.
  destruct (checkConnection E s) as [o s'] eqn:Hc.
  unfold checkConnection, try_catch, bind at 1 in Hc.
  destruct Hfail as [Hf | (r & Hf & Hok & Hj)].
  - rewrite (request_refused E _ _ s e Hr Hf) in Hc. cbn in Hc.
    injection Hc as <- <-. split; [reflexivity |].
    unfold status_of. cbn. apply list_lookup_total_alter_eq. exact Hv.
  - rewrite (request_ready E _ _ s r Hr Hf) in Hc. cbv beta iota in Hc.
    rewrite Hok in Hc. unfold bind at 1, response_json in Hc. rewrite Hj in Hc.
    cbn in Hc. injection Hc as <- <-. split; [reflexivity |].
    unfold status_of. cbn. apply list_lookup_total_alter_eq. exact Hv.
Qed.

Lemma checkConnection_failure_clears_flag_witness :
  let E := World.down in
  let s := World.initialized E in
  fst (checkConnection E s) = Returned (VBool false) /\
  status_of (after (checkConnection E) s) =
    mkStatus (VBool false) (VBool true) (VStr "185.220.101.4")
             (VStr "0.4.8.12") VUndefined None.
Proof.
  intros E s.
  apply (checkConnection_failure_clears_flag E s World.refused).
  - split; [reflexivity | eexists; reflexivity].
  - unfold valid_ref. simpl. lia.
  - left. reflexivity.
Defined.

(** X13 — On a ready client, when the check endpoint answers with a success
    status and a JSON object, [checkConnection] stores the object's [IP] in
    [currentIP] and its [IsTor] in [isConnected], and returns that [IsTor];
    the other properties of the status keep their values. *)
Theorem checkConnection_success_updates (E : Env) (s : State) (r : Response)
    (props : list (string * value)) :
  ready s -> valid_ref s ->
  fetch E (history s) check_url (requestOptions (agent s) check_options) = inr r ->
  ok r = true ->
  json r = inr (VObj props) ->
  fst (checkConnection E s) = Returned (assoc "IsTor" props) /\
  status_of (after (checkConnection E) s) =
    with_isConnected (assoc "IsTor" props)
      (with_currentIP (assoc "IP" props) (status_of s)).
Proof.
  intros Hr Hv Hf Hok Hj. unfold after.
  destruct (checkConnection E s) as [o s'] eqn:Hc.
  unfold checkConnection, try_catch, bind at 1 in Hc.
  rewrite (request_ready E _ _ s r Hr Hf) in Hc. cbv beta iota in Hc.
  rewrite Hok in Hc. unfold bind at 1, response_json in Hc. rewrite Hj in Hc.
  cbn in Hc. injection Hc as <- <-. split; [reflexivity |].
  unfold status_of. cbn.
  rewrite list_lookup_total_alter_eq by (rewrite length_alter; exact Hv).
  rewrite list_lookup_total_alter_eq by exact Hv. reflexivity.
Qed.

Lemma checkConnection_success_updates_witness :
  let E := Scenario.other_exit in
  let s := World.initialized E in
  fst (checkConnection E s) = Returned (VBool true) /\
  status_of (after (checkConnection E) s) =
    mkStatus (VBool true) (VBool true) (VStr "199.249.230.7")
             (VStr "0.4.8.12") VUndefined None.
Proof.
  intros E s.
  apply (checkConnection_success_updates E s Scenario.other_exit_reply
           [("IsTor", VBool true); ("IP", VStr "199.249.230.7")]).
  - split; [reflexivity | eexists; reflexivity].
  - unfold valid_ref. simpl. lia.
  - reflexivity.
  - reflexivity.
  - reflexivity.
Defined.

(** ** The status after a refresh *)

Lemma same_heap_refl s : same_heap s s.
Proof. repeat split. Qed.

Lemma same_heap_trans s1 s2 s3 : same_heap s1 s2 -> same_heap s2 s3 -> same_heap s1 s3.
Proof. unfold same_heap. intros (?&?&?) (?&?&?). repeat split; congruence. Qed.

Lemma heap_sendControlCommand command :
  keeps same_heap (sendControlCommand command).
Proof. intros s. repeat split. Qed.

Lemma hoare_heap_settled {A} (m : M A) :
  keeps same_heap m ->
  hoare (fun s => valid_ref s /\ settled (status_of s)) m
        (fun _ s => valid_ref s /\ settled (status_of s))
        (fun _ s => valid_ref s /\ settled (status_of s)).
Proof.
  intros Hm. apply (hoare_keeps same_heap); [exact Hm |].
  unfold valid_ref, status_of. intros s s' Hs (Hr & Hl & _). rewrite Hr, Hl. exact Hs.
Qed.

Lemma updateConnectionStatus_settled (E : Env) :
  hoare (fun _ => True) (updateConnectionStatus E)
        (fun _ s => valid_ref s /\ settled (status_of s)) (fun _ _ => False).
Proof.
  unfold updateConnectionStatus.
  eapply hoare_try_catch with (X := fun _ _ => False).
  2:{ intros e s Hf. destruct Hf. }
  eapply hoare_bind; [apply checkConnection_never_throws |]. intros isConnected'.
  eapply hoare_bind; [apply hoare_get |]. intros s0.
  eapply hoare_bind with
    (Q := fun r s => (r < length (statuses s))%nat /\ settled (statuses s !!! r)).
  { intros s _. cbn. split.
    - rewrite length_app. simpl. lia.
    - rewrite list_lookup_total_middle by reflexivity. reflexivity. }
  intros r.
  eapply hoare_bind with (Q := fun _ s => valid_ref s /\ settled (status_of s)).
  { apply hoare_modify. intros s Hs. exact Hs. }
  intros ?.
  destruct (truthy isConnected').
  - eapply hoare_try_catch with (X := fun _ s => valid_ref s /\ settled (status_of s)).
    + eapply hoare_bind.
      * apply hoare_heap_settled, heap_sendControlCommand.
      * intros versionInfo. cbv beta.
        intros s [Hv Hs]. cbn. split.
        -- unfold valid_ref. cbn. rewrite length_alter. exact Hv.
        -- unfold status_of. cbn.
           rewrite list_lookup_total_alter_eq by exact Hv. exact Hs.
    + intros e. apply hoare_ret. auto.
  - apply hoare_ret. auto.
Qed.

Lemma getStatus_result (E : Env) (s : State) :
  let s1 := after (updateConnectionStatus E) s in
  getStatus E s =
    (Returned (length (statuses s1)),
     set_statuses (statuses s1 ++ [status_of s1])%list s1).
Proof.
  intros s1. destruct (updateConnectionStatus_returns E s) as [Hu _].
  unfold getStatus, bind at 1. rewrite Hu. reflexivity.
Qed.

(** [getStatus] returns a copy of the status the refresh left. *)
Lemma getStatus_settled (E : Env) (s : State) :
  exists r s',
    getStatus E s = (Returned r, s') /\
    statuses s' !!! r = status_of s' /\
    valid_ref s' /\
    (r < length (statuses s'))%nat /\
    r <> connectionStatus s' /\
    settled (status_of s') /\
    status_of s' = status_of (after (updateConnectionStatus E) s) /\
    dates s' = dates (after (updateConnectionStatus E) s).
Proof.
  pose proof (getStatus_result E s) as Hg. cbv zeta in Hg.
  pose proof (updateConnectionStatus_settled E s I) as Hs.
  destruct (updateConnectionStatus_returns E s) as [Hu Hv].
  rewrite Hu in Hs. destruct Hs as [_ Hs].
  set (s1 := after (updateConnectionStatus E) s) in *.
  set (s' := set_statuses (statuses s1 ++ [status_of s1])%list s1) in *.
  unfold valid_ref in Hv.
  assert (Hst : status_of s' = status_of s1).
  { unfold status_of at 1. apply lookup_total_app_l. exact Hv. }
  assert (Hcp : statuses s' !!! length (statuses s1) = status_of s1).
  { apply list_lookup_total_middle. reflexivity. }
  assert (Hlen : length (statuses s') = S (length (statuses s1))).
  { unfold s'. cbn. rewrite length_app. cbn. lia. }
  exists (length (statuses s1)), s'. split; [exact Hg |].
  rewrite Hst, Hcp. unfold valid_ref. rewrite Hlen.
  change (connectionStatus s') with (connectionStatus s1).
  repeat split; try reflexivity; try lia. exact Hs.
Qed.

(** X14 — After [getStatus], in the client's own status and in the object
    returned alike, [circuitEstablished] holds the same value as
    [isConnected]: a refresh always writes the two together. *)
Theorem getStatus_circuit_follows_connection (E : Env) (s : State) :
  exists r s',
    getStatus E s = (Returned r, s') /\
    circuitEstablished (statuses s' !!! r) = isConnected (statuses s' !!! r) /\
    circuitEstablished (status_of s') = isConnected (status_of s').
Proof.
  destruct (getStatus_settled E s) as (r & s' & Hg & Hc & _ & _ & _ & Hs & _).
  exists r, s'. split; [exact Hg |]. rewrite Hc. split; exact Hs.
Qed.

(** X15 — For the status that [getStatus] returns, [getConnectionQuality]
    never answers [Fair (No circuit)]: that branch needs a status that is
    connected without a circuit, which a refresh never produces. *)
Theorem quality_never_fair (E : Env) (s : State) :
  exists r s',
    getStatus E s = (Returned r, s') /\
    TorTools.getConnectionQuality (statuses s' !!! r) <> "Fair (No circuit)".
Proof.
  destruct (getStatus_settled E s) as (r & s' & Hg & Hc & _ & _ & _ & Hs & _).
  exists r, s'. split; [exact Hg |].
  unfold TorTools.getConnectionQuality. rewrite Hc. unfold settled in Hs. rewrite Hs.
  destruct (truthy (isConnected (status_of s'))); simpl.
  - destruct (truthy (currentIP (status_of s'))); discriminate.
  - discriminate.
Qed.

(** ** Frames through a refresh *)

Section RefreshFrame.

Variable E : Env.
Variable R : State -> State -> Prop.
Hypothesis R_refl : forall s, R s s.
Hypothesis R_trans : forall s1 s2 s3, R s1 s2 -> R s2 s3 -> R s1 s3.

Hypothesis R_check : keeps R (checkConnection E).
Hypothesis R_replace : forall v s, R s (replace_status v s).

Lemma keeps_updateConnectionStatus : keeps R (updateConnectionStatus E).
Proof.
  intros s. destruct (updateConnectionStatus_unfold E s) as (v & _ & ->).
  cbn [snd]. eapply R_trans; [apply R_check | apply R_replace].
Qed.

Lemma keeps_getStatus :
  (forall s, R s (set_statuses (statuses s ++ [status_of s])%list s)) ->
  keeps R (getStatus E).
Proof.
  intros R_copy. unfold getStatus.
  apply (keeps_bind R R_trans); [apply keeps_updateConnectionStatus |].
  intros ? s. unfold bind, get, alloc_status. cbv beta iota. apply R_copy.
Qed.

End RefreshFrame.

(** ** What leaves the heap alone *)

Ltac frame_heap := frame_by same_heap_refl same_heap_trans.

Section HeapFrame.

Variable E : Env.

Lemma heap_console_error line : keeps same_heap (console_error line).
Proof. unfold console_error. frame_heap. Qed.

Lemma heap_sleep ms : keeps same_heap (sleep ms).
Proof. unfold sleep. frame_heap. Qed.

Lemma heap_do_fetch url options : keeps same_heap (do_fetch E url options).
Proof. intros s. unfold do_fetch. destruct (fetch _ _ _ _); repeat split. Qed.

Lemma heap_response_json r : keeps same_heap (response_json r).
Proof. unfold response_json. destruct (json r); frame_heap. Qed.

Lemma heap_prop v k : keeps same_heap (prop v k).
Proof. unfold prop. destruct (getProp v k); frame_heap. Qed.

Hint Resolve heap_console_error heap_sleep heap_do_fetch heap_response_json
  heap_prop heap_sendControlCommand : frame.

Lemma heap_request url options : keeps same_heap (request E url options).
Proof. unfold request. frame_heap. Qed.

Lemma heap_new_SocksProxyAgent port : keeps same_heap (new_SocksProxyAgent port).
Proof. unfold new_SocksProxyAgent. frame_heap. Qed.
Hint Resolve heap_new_SocksProxyAgent : frame.

Lemma heap_checkExistingTorConnection : keeps same_heap (checkExistingTorConnection E).
Proof. unfold checkExistingTorConnection. frame_heap. Qed.
Hint Resolve heap_checkExistingTorConnection : frame.

Lemma heap_fs_mkdir path : keeps same_heap (fs_mkdir E path).
Proof. intros s. unfold fs_mkdir. destruct (mkdir _ _ _); repeat split. Qed.

Lemma heap_fs_writeFile path content : keeps same_heap (fs_writeFile E path content).
Proof. intros s. unfold fs_writeFile. destruct (writeFile _ _ _ _); repeat split. Qed.

Lemma heap_spawn_tor path : keeps same_heap (spawn_tor E path).
Proof.
  intros s. unfold spawn_tor.
  destruct (spawn _ _ _ _); try case_bool_decide; repeat split.
Qed.
Hint Resolve heap_fs_mkdir heap_fs_writeFile heap_spawn_tor : frame.

Lemma heap_startTorDaemon : keeps same_heap (startTorDaemon E).
Proof.
  unfold startTorDaemon. frame_heap.
  destruct (dataDirectory (config a)); frame_heap.
Qed.

Lemma heap_wait_attempts n : keeps same_heap (wait_attempts E n).
Proof. induction n as [| n IH]; simpl; frame_heap. Qed.

Lemma heap_waitForTorConnection : keeps same_heap (waitForTorConnection E).
Proof. apply heap_wait_attempts. Qed.

Lemma heap_cleanup : keeps same_heap cleanup.
Proof. unfold cleanup. frame_heap. Qed.

End HeapFrame.

#[local] Hint Resolve heap_console_error heap_sleep heap_do_fetch heap_response_json
  heap_prop heap_sendControlCommand heap_request heap_new_SocksProxyAgent
  heap_checkExistingTorConnection
  heap_startTorDaemon heap_waitForTorConnection heap_cleanup : frame.

(** ** The rotation timestamp *)

Lemma time_kept_refl s : time_kept s s.
Proof. split; reflexivity. Qed.

Lemma time_kept_trans s1 s2 s3 : time_kept s1 s2 -> time_kept s2 s3 -> time_kept s1 s3.
Proof. unfold time_kept. intros (?&?) (?&?). split; congruence. Qed.

Lemma heap_time_kept {A} (m : M A) : keeps same_heap m -> keeps time_kept m.
Proof.
  intros Hm s. destruct (Hm s) as (Hr & Hs & Hd).
  unfold time_kept, status_of. rewrite Hr, Hs, Hd. split; reflexivity.
Qed.

Lemma time_assign_status (f : TorConnectionStatus -> TorConnectionStatus) :
  (forall o, lastCircuitTime (f o) = lastCircuitTime o) ->
  keeps time_kept (assign_status f).
Proof.
  intros Hf s. split; [| reflexivity].
  unfold status_of. cbn. rewrite list_lookup_total_alter.
  case_decide; [apply Hf | reflexivity].
Qed.

Lemma time_replace_status v s : time_kept s (replace_status v s).
Proof.
  split; [| reflexivity]. unfold status_of at 1, replace_status.
  cbn [statuses connectionStatus set_statuses set_connectionStatus].
  rewrite list_lookup_total_middle by reflexivity. reflexivity.
Qed.

Lemma time_checkConnection (E : Env) : keeps time_kept (checkConnection E).
Proof.
  unfold checkConnection.
  frame_by time_kept_refl time_kept_trans;
    first [ solve [apply heap_time_kept; auto with frame]
          | solve [apply time_assign_status; reflexivity] ].
Qed.

Lemma time_updateConnectionStatus (E : Env) : keeps time_kept (updateConnectionStatus E).
Proof.
  apply (keeps_updateConnectionStatus E time_kept time_kept_trans).
  - apply time_checkConnection.
  - apply time_replace_status.
Qed.

(** X16 — Whatever the refresh finds, [getStatus] keeps the rotation
    timestamp: the object it returns refers to the same [Date] as the
    client's status did before the call, and no [Date] object is created or
    changed. *)
Theorem getStatus_keeps_rotation_time (E : Env) (s : State) :
  exists r s',
    getStatus E s = (Returned r, s') /\
    lastCircuitTime (statuses s' !!! r) = lastCircuitTime (status_of s) /\
    dates s' = dates s.
Proof.
  destruct (getStatus_settled E s) as (r & s' & Hg & Hc & _ & _ & _ & _ & Hs & Hd).
  destruct (time_updateConnectionStatus E s) as [Ht Hdt].
  fold (after (updateConnectionStatus E) s) in Ht, Hdt.
  exists r, s'. split; [exact Hg |].
  rewrite Hc, Hs, Hd. split; [exact Ht | exact Hdt].
Qed.

(** ** [newCircuit] and the control channel *)

(** X18 — Whatever the state and the world, [newCircuit] returns [false]
    after writing one log line, [Failed to create new circuit:] with the
    [ReferenceError] of [require], and does nothing else: no connection to
    the control port, no settle delay, no refresh of the status, no rotation
    timestamp. *)
Theorem newCircuit_failure_touches_nothing (E : Env) (s : State) :
  exists detail,
    newCircuit E s =
      (Returned false,
       record (ELog ("[TorClient] Failed to create new circuit: ReferenceError: "
                     +:+ detail)) s).
Proof. eexists. rewrite newCircuit_fails. reflexivity. Qed.

(** ** What no operation changes *)

Lemma same_config_refl s : same_config s s.
Proof. reflexivity. Qed.

Lemma same_config_trans s1 s2 s3 :
  same_config s1 s2 -> same_config s2 s3 -> same_config s1 s3.
Proof. unfold same_config. congruence. Qed.

Lemma stable_same_config {A} (m : M A) : keeps stable m -> keeps same_config m.
Proof. intros Hm s. apply (Hm s). Qed.

Lemma config_initialize (E : Env) : keeps same_config (initialize E).
Proof.
  unfold initialize.
  frame_by same_config_refl same_config_trans;
    solve [apply stable_same_config; auto with frame].
Qed.

Lemma config_cleanup : keeps same_config cleanup.
Proof. unfold cleanup. frame_by same_config_refl same_config_trans. Qed.

Lemma config_call (E : Env) (o : Op) (s : State) : config (call E o s) = config s.
Proof.
  destruct o; simpl; unfold after.
  - apply config_initialize.
  - apply (stable_request E url options s).
  - apply (stable_getStatus E s).
  - apply (stable_newCircuit E s).
  - apply (stable_checkConnection E s).
  - apply config_cleanup.
Qed.

(** X19 — The configuration resolved by the constructor is never changed:
    after any sequence of public calls, whatever they return or throw, the
    client holds the configuration it started with. *)
Theorem config_never_changes (E : Env) (ops : list Op) (s : State) :
  config (run E ops s) = config s.
Proof.
  revert s. induction ops as [| o ops IH]; intros s; simpl; [reflexivity |].
  rewrite IH. apply config_call.
Qed.

Lemma others_kept_refl s : others_kept s s.
Proof.
  unfold others_kept. split; [lia |]. split; [left; reflexivity |].
  split; [reflexivity |]. exists []. rewrite app_nil_r. reflexivity.
Qed.

Lemma others_kept_trans s1 s2 s3 :
  others_kept s1 s2 -> others_kept s2 s3 -> others_kept s1 s3.
Proof.
  unfold others_kept.
  intros (Hl1 & Hc1 & Ho1 & m1 & Hd1) (Hl2 & Hc2 & Ho2 & m2 & Hd2).
  split; [lia |]. split; [destruct Hc1, Hc2; (left; congruence) || (right; lia) |].
  split.
  - intros r Hr Hne. rewrite Ho2; [apply Ho1; assumption | lia |].
    destruct Hc1 as [-> | Hc1]; [exact Hne | lia].
  - exists (m1 ++ m2)%list. rewrite Hd2, Hd1, app_assoc. reflexivity.
Qed.

Lemma heap_others_kept {A} (m : M A) : keeps same_heap m -> keeps others_kept m.
Proof.
  intros Hm s. destruct (Hm s) as (Hr & Hs & Hd).
  unfold others_kept. rewrite Hr, Hs, Hd.
  split; [lia |]. split; [left; reflexivity |]. split; [reflexivity |].
  exists []. rewrite app_nil_r. reflexivity.
Qed.

Lemma others_assign_status f : keeps others_kept (assign_status f).
Proof.
  intros s. unfold others_kept. cbn. rewrite length_alter.
  split; [lia |]. split; [left; reflexivity |]. split.
  - intros r _ Hne. apply list_lookup_alter_ne. congruence.
  - exists []. rewrite app_nil_r. reflexivity.
Qed.

Lemma others_replace_status v s : others_kept s (replace_status v s).
Proof.
  unfold others_kept, replace_status. cbn. rewrite length_app. cbn.
  split; [lia |]. split; [right; lia |]. split.
  - intros r Hr _. apply lookup_app_l. exact Hr.
  - exists []. rewrite app_nil_r. reflexivity.
Qed.

Lemma others_copy s : others_kept s (set_statuses (statuses s ++ [status_of s])%list s).
Proof.
  unfold others_kept. cbn. rewrite length_app. cbn.
  split; [lia |]. split; [left; reflexivity |]. split.
  - intros r Hr _. apply lookup_app_l. exact Hr.
  - exists []. rewrite app_nil_r. reflexivity.
Qed.

Lemma others_new_Date (E : Env) : keeps others_kept (new_Date E).
Proof.
  intros s. unfold others_kept. cbn.
  split; [lia |]. split; [left; reflexivity |]. split; [reflexivity |].
  eexists. reflexivity.
Qed.

Lemma others_checkConnection (E : Env) : keeps others_kept (checkConnection E).
Proof.
  unfold checkConnection.
  frame_by others_kept_refl others_kept_trans;
    first [ solve [apply heap_others_kept; auto with frame]
          | solve [apply others_assign_status] ].
Qed.

Lemma others_updateConnectionStatus (E : Env) :
  keeps others_kept (updateConnectionStatus E).
Proof.
  apply (keeps_updateConnectionStatus E others_kept others_kept_trans).
  - apply others_checkConnection.
  - apply others_replace_status.
Qed.

Lemma others_getStatus (E : Env) : keeps others_kept (getStatus E).
Proof.
  apply (keeps_getStatus E others_kept others_kept_trans).
  - apply others_checkConnection.
  - apply others_replace_status.
  - apply others_copy.
Qed.

Lemma others_newCircuit (E : Env) : keeps others_kept (newCircuit E).
Proof.
  unfold newCircuit.
  frame_by others_kept_refl others_kept_trans;
    first [ solve [apply heap_others_kept; auto with frame]
          | solve [apply others_assign_status]
          | solve [apply others_updateConnectionStatus]
          | solve [apply others_new_Date] ].
Qed.

Lemma others_initialize (E : Env) : keeps others_kept (initialize E).
Proof.
  unfold initialize.
  frame_by others_kept_refl others_kept_trans;
    first [ solve [apply heap_others_kept; auto with frame]
          | solve [apply others_updateConnectionStatus]
          | solve [cbn; lia]
          | solve [left; reflexivity]
          | solve [intros; reflexivity]
          | solve [exists []; cbn; rewrite app_nil_r; reflexivity] ].
Qed.

Lemma others_call (E : Env) (o : Op) (s : State) : others_kept s (call E o s).
Proof.
  destruct o; simpl; unfold after.
  - apply others_initialize.
  - apply heap_others_kept, heap_request.
  - apply others_getStatus.
  - apply others_newCircuit.
  - apply others_checkConnection.
  - apply heap_others_kept, heap_cleanup.
Qed.

Lemma others_run (E : Env) (ops : list Op) : forall s, others_kept s (run E ops s).
Proof.
  induction ops as [| o ops IH]; intros s; simpl; [apply others_kept_refl |].
  eapply others_kept_trans; [apply others_call | apply IH].
Qed.

(** X20 — A status object handed out by [getStatus] is never written by the
    client afterwards: through any later sequence of public calls it keeps
    the properties it had when it was returned, and every [Date] object
    keeps its time. *)
Theorem returned_status_never_written (E : Env) (s : State) :
  exists r s',
    getStatus E s = (Returned r, s') /\
    forall ops,
      statuses (run E ops s') !! r = Some (status_of s') /\
      (forall d t, dates s' !! d = Some t -> dates (run E ops s') !! d = Some t).
Proof.
  destruct (getStatus_settled E s) as (r & s' & Hg & Hc & _ & Hr & Hne & _).
  exists r, s'. split; [exact Hg |]. intros ops.
  destruct (others_run E ops s') as (_ & _ & Ho & more & Hd). split.
  - rewrite (Ho r Hr Hne), <- Hc. apply list_lookup_lookup_total_lt. exact Hr.
  - intros d t Ht. rewrite Hd. apply lookup_app_l_Some. exact Ht.
Qed.

(** * The tool handlers *)

(** ** [searchOnionServices] *)

(** X21 — An empty query matches every known service: the results are the
    first [limit] entries of the directory, in its order, eight at most. *)
Theorem search_empty_query (limit : Z) :
  TorTools.results "" limit = take (Z.to_nat limit) TorTools.knownOnionServices /\
  length (TorTools.results "" limit) = Nat.min (Z.to_nat limit) 8.
Proof.
  assert (H : TorTools.results "" limit
              = take (Z.to_nat limit) TorTools.knownOnionServices).
  { unfold TorTools.results. f_equal. }
  split; [exact H |]. rewrite H, length_take. reflexivity.
Qed.

Lemma In_take {A} (x : A) (n : nat) (l : list A) : In x (take n l) -> In x l.
Proof.
  revert n. induction l as [| y l IH]; intros [| n] H; simpl in *; try contradiction.
  destruct H as [H | H]; [left; exact H | right; eapply IH; exact H].
Qed.

(** X22 — Every result of a search is a known service whose name,
    description or category contains the lower-cased query, and there are
    never more results than the limit. *)
Theorem search_results_sound (query : string) (limit : Z)
    (service : TorTools.OnionService) :
  In service (TorTools.results query limit) ->
  In service TorTools.knownOnionServices /\
  TorTools.matches (TorTools.toLowerCase query) service = true /\
  (length (TorTools.results query limit) <= Z.to_nat limit)%nat.
Proof.
  unfold TorTools.results. intros H. apply In_take in H.
  apply filter_In in H as [Hk Hm]. split; [exact Hk |]. split; [exact Hm |].
  rewrite length_take. lia.
Qed.

Lemma search_results_sound_witness :
  let nyt := TorTools.mkService "The New York Times" "https://nytimes3xbfgragh.onion"
               "News and journalism" "news" true in
  In nyt (TorTools.results "NEWS" 2) /\
  TorTools.matches "news" nyt = true /\
  (length (TorTools.results "NEWS" 2) <= 2)%nat.
Proof.
  intros nyt.
  assert (H : In nyt (TorTools.results "NEWS" 2)) by (left; reflexivity).
  split; [exact H |].
  destruct (search_results_sound "NEWS" 2 nyt H) as (_ & Hm & Hl).
  split; [exact Hm | exact Hl].
Defined.

(** ** The options of [makeRequest] *)

Lemma header_set_header_eq k v obj :
  TorTools.header k (TorTools.set_header k v obj) = Some v.
Proof.
  induction obj as [| [k' v'] obj IH]; simpl.
  - rewrite String.eqb_refl. reflexivity.
  - destruct (String.eqb k k') eqn:Hk; simpl; rewrite Hk; [reflexivity | exact IH].
Qed.

Lemma header_set_header_ne k k0 v obj :
  k <> k0 ->
  TorTools.header k (TorTools.set_header k0 v obj) = TorTools.header k obj.
Proof.
  intros Hne. induction obj as [| [k' v'] obj IH]; simpl.
  - destruct (String.eqb_spec k k0); [contradiction | reflexivity].
  - destruct (String.eqb_spec k0 k'); simpl.
    + subst k'. destruct (String.eqb_spec k k0); [contradiction | reflexivity].
    + destruct (String.eqb k k'); [reflexivity | exact IH].
Qed.

Lemma header_absent k obj :
  k ∉ map fst obj -> TorTools.header k obj = None.
Proof.
  induction obj as [| [k' v'] obj IH]; intros Hn; simpl; [reflexivity |].
  simpl in Hn. apply not_elem_of_cons in Hn as [Hne Hn].
  destruct (String.eqb_spec k k'); [contradiction | apply IH; exact Hn].
Qed.

Lemma header_spread k more : forall obj,
  NoDup (map fst more) ->
  TorTools.header k (TorTools.spread_headers obj more) =
    match TorTools.header k more with
    | Some v => Some v
    | None => TorTools.header k obj
    end.
Proof.
  unfold TorTools.spread_headers.
  induction more as [| [k0 v0] more IH]; intros obj Hnd; simpl; [reflexivity |].
  inversion Hnd as [| ? ? Hnotin Hnd']; subst.
  rewrite (IH _ Hnd'). simpl in Hnotin.
  destruct (String.eqb_spec k k0).
  - subst k0. rewrite (header_absent _ _ Hnotin). apply header_set_header_eq.
  - rewrite (header_set_header_ne _ _ _ _ n). reflexivity.
Qed.

(** X23 — The [fetch] that a [tor_request] tool call leads to, once the
    guard of [request] passes: it goes through the client's agent, follows
    redirects, uses the timeout and method of the call, carries a body only
    for POST, PUT and PATCH with a non-empty body, and sends the caller's
    headers over a default [User-Agent: TorOllama-MCP/1.0.0]. *)
Theorem makeRequest_issued_fetch (this_agent : option SocksProxyAgent)
    (method : TorTools.Method) (headers : option (list (string * string)))
    (body : option string) (timeout_ms : Z) :
  NoDup (map fst (default [] headers)) ->
  let issued :=
    requestOptions this_agent
      (TorTools.makeRequest_options method headers body timeout_ms) in
  Init.agent (fetch_init issued) = this_agent /\
  Init.redirect (fetch_init issued) = Some "follow" /\
  fetch_timeout issued = Some timeout_ms /\
  Init.method (fetch_init issued) = Some (TorTools.method_name method) /\
  (forall b, Init.body (fetch_init issued) = Some b ->
             body = Some b /\ b <> "" /\ TorTools.takes_body method = true) /\
  exists sent,
    Init.headers (fetch_init issued) = Some sent /\
    forall k,
      TorTools.header k sent =
        match TorTools.header k (default [] headers) with
        | Some v => Some v
        | None => if String.eqb k "User-Agent" then Some "TorOllama-MCP/1.0.0"
                  else None
        end.
Proof.
  intros Hnd issued.
  assert (Hh : forall k,
             TorTools.header k
               (TorTools.spread_headers [("User-Agent", "TorOllama-MCP/1.0.0")]
                  (default [] headers)) =
             match TorTools.header k (default [] headers) with
             | Some v => Some v
             | None => if String.eqb k "User-Agent" then Some "TorOllama-MCP/1.0.0"
                       else None
             end).
  { intros k. rewrite (header_spread k _ _ Hnd). reflexivity. }
  assert (Hgoal : forall sent_body,
             (forall b, sent_body = Some b ->
                        body = Some b /\ b <> "" /\ TorTools.takes_body method = true) ->
             let issued :=
               requestOptions this_agent
                 (mkOptions
                    (Init.mk (Some (TorTools.method_name method))
                       (Some (TorTools.spread_headers
                                [("User-Agent", "TorOllama-MCP/1.0.0")]
                                (default [] headers)))
                       sent_body None None None)
                    (Some timeout_ms) None None) in
             Init.agent (fetch_init issued) = this_agent /\
             Init.redirect (fetch_init issued) = Some "follow" /\
             fetch_timeout issued = Some timeout_ms /\
             Init.method (fetch_init issued) = Some (TorTools.method_name method) /\
             (forall b, Init.body (fetch_init issued) = Some b ->
                        body = Some b /\ b <> "" /\ TorTools.takes_body method = true) /\
             exists sent,
               Init.headers (fetch_init issued) = Some sent /\
               forall k,
                 TorTools.header k sent =
                   match TorTools.header k (default [] headers) with
                   | Some v => Some v
                   | None => if String.eqb k "User-Agent"
                             then Some "TorOllama-MCP/1.0.0" else None
                   end).
  { intros sent_body Hbody. cbn.
    split; [reflexivity |]. split; [reflexivity |]. split; [reflexivity |].
    split; [reflexivity |]. split; [exact Hbody |].
    eexists. split; [reflexivity | exact Hh]. }
  unfold issued, TorTools.makeRequest_options.
  destruct body as [b |].
  - destruct (String.eqb_spec b "") as [Hb | Hb]; cbn [negb andb].
    + apply Hgoal. intros b' Hb'. discriminate.
    + destruct (TorTools.takes_body method) eqn:Ht.
      * apply Hgoal. intros b' Hb'. injection Hb' as <-. repeat split; assumption.
      * apply Hgoal. intros b' Hb'. discriminate.
  - apply Hgoal. intros b' Hb'. discriminate.
Qed.

Lemma makeRequest_issued_fetch_witness :
  let issued :=
    requestOptions (agent (World.initialized World.up))
      (TorTools.makeRequest_options TorTools.DELETE
         (Some [("Accept", "text/html"); ("User-Agent", "curl/8.5.0")])
         (Some "id=7") 15000) in
  Init.body (fetch_init issued) = None /\
  exists sent,
    Init.headers (fetch_init issued) = Some sent /\
    TorTools.header "User-Agent" sent = Some "curl/8.5.0".
Proof.
  intros issued. split; [reflexivity |].
  destruct (makeRequest_issued_fetch (agent (World.initialized World.up))
              TorTools.DELETE
              (Some [("Accept", "text/html"); ("User-Agent", "curl/8.5.0")])
              (Some "id=7") 15000) as (_ & _ & _ & _ & _ & sent & Hs & Hk).
  - apply (bool_decide_unpack _). reflexivity.
  - exists sent. split; [exact Hs |]. rewrite Hk. reflexivity.
Defined.

(** * A new client, end to end *)

Lemma getStatus_uninitialized (E : Env) (s : State) :
  isInitialized s = false ->
  exists r s',
    getStatus E s = (Returned r, s') /\
    isConnected (statuses s' !!! r) = VBool false /\
    circuitEstablished (statuses s' !!! r) = VBool false /\
    history s' = (history s ++
                  [ELog ("[TorClient] Connection check failed: "
                         +:+ toString not_initialized)])%list.
Proof.
  intros Hs.
  destruct (getStatus_settled E s) as (r & s' & Hg & Hc & _ & _ & _ & Hset & Hst & _).
  destruct (updateConnectionStatus_uninitialized E s Hs) as (s1 & Hu & _ & Hh & Hi).
  exists r, s'. split; [exact Hg |].
  unfold settled in Hset. rewrite Hc. rewrite Hset.
  unfold after in Hst. rewrite Hu in Hst. cbn [snd] in Hst. rewrite Hst.
  split; [exact Hi |]. split; [exact Hi |].
  pose proof (getStatus_result E s) as Hr. cbv zeta in Hr. unfold after in Hr.
  rewrite Hu in Hr. cbn [snd] in Hr. rewrite Hg in Hr. injection Hr as _ ->.
  exact Hh.
Qed.

(** X24 — On a new client, after any sequence of public calls:
    [checkConnection] returns [false] and [getStatus] returns a status that
    says not connected, no circuit, quality [Poor (No connection)]; neither
    sends anything to the network or the control port, each only writes one
    log line. *)
Theorem new_client_reports_disconnected (E : Env) (cfg : Partial.TorConfig)
    (st : list TorConnectionStatus) (d : list Z) (h : History) (ops : list Op) :
  let s := run E ops (constructor E cfg st d h) in
  let line := ELog ("[TorClient] Connection check failed: "
                    +:+ toString not_initialized) in
  (fst (checkConnection E s) = Returned (VBool false) /\
   history (after (checkConnection E) s) = (history s ++ [line])%list) /\
  exists r s',
    getStatus E s = (Returned r, s') /\
    isConnected (statuses s' !!! r) = VBool false /\
    circuitEstablished (statuses s' !!! r) = VBool false /\
    TorTools.getConnectionQuality (statuses s' !!! r) = "Poor (No connection)" /\
    history s' = (history s ++ [line])%list.
Proof.
  intros s line.
  assert (Hs : isInitialized s = false) by (apply run_uninitialized; reflexivity).
  split.
  - unfold after. rewrite (checkConnection_uninitialized E s Hs). split; reflexivity.
  - destruct (getStatus_uninitialized E s Hs) as (r & s' & Hg & Hi & Hc & Hh).
    exists r, s'. split; [exact Hg |]. split; [exact Hi |]. split; [exact Hc |].
    split; [| exact Hh].
    unfold TorTools.getConnectionQuality. rewrite Hi. reflexivity.
Qed.

Lemma updateConnectionStatus_blocked (E : Env) (s : State) :
  isInitialized s = false ->
  updateConnectionStatus E s = (Returned tt, blocked_refresh s).
Proof.
  intros Hs. unfold updateConnectionStatus, try_catch, bind at 1.
  rewrite (checkConnection_uninitialized E s Hs). reflexivity.
Qed.

Lemma blocked_refresh_status (s : State) :
  isConnected (status_of (blocked_refresh s)) = VBool false.
Proof.
  unfold status_of, blocked_refresh, replace_status.
  cbn [statuses connectionStatus set_statuses set_connectionStatus].
  rewrite list_lookup_total_middle by reflexivity. reflexivity.
Qed.

Lemma checkExistingTorConnection_found (E : Env) (s : State) (r : Response)
    (props : list (string * value)) :
  valid_port (socksPort (config s)) = true ->
  fetch E (history s) check_url (probe_options (config s)) = inr r ->
  ok r = true ->
  json r = inr (VObj props) ->
  checkExistingTorConnection E s =
    (Returned (assoc "IsTor" props),
     record (EFetch check_url (probe_options (config s))) s).
Proof.
  intros Hp Hf Hok Hj. rewrite (checkExistingTorConnection_valid E s Hp).
  unfold try_catch, bind at 1, do_fetch. rewrite Hf, Hok.
  unfold bind, response_json. rewrite Hj. reflexivity.
Qed.

(** X25 — With a SOCKS port that an agent can be made for and a daemon
    already running, so that the probe answers [IsTor: true],
    [initialize()] on a new client adopts it, binds the agent,
    and then throws [TOR initialization failed: Error: Failed to establish
    TOR connection]: its verification is stopped by the guard of [request]
    and never reaches the network.  No directory, file or process is
    created. *)
Theorem initialize_with_running_daemon (E : Env) (s : State) (r : Response)
    (props : list (string * value)) :
  isInitialized s = false ->
  valid_port (socksPort (config s)) = true ->
  fetch E (history s) check_url (probe_options (config s)) = inr r ->
  ok r = true ->
  json r = inr (VObj props) ->
  truthy (assoc "IsTor" props) = true ->
  exists s',
    initialize E s =
      (Thrown (new_Error
                 "TOR initialization failed: Error: Failed to establish TOR connection"),
       s') /\
    history s' =
      (history s ++
       [EFetch check_url (probe_options (config s));
        ELog "[TorClient] Using existing TOR connection";
        ELog ("[TorClient] Connection check failed: " +:+ toString not_initialized)])%list /\
    agent s' = Some (mkAgent (socks_uri (socksPort (config s)))) /\
    torProcess s' = torProcess s /\
    isInitialized s' = false.
Proof.
  intros Hs Hp Hf Hok Hj Ht.
  assert (Hi : forall body handler,
             (s0 <- get; if isInitialized s0 then ret tt
                         else try_catch body handler) s
             = try_catch body handler s).
  { intros body handler. unfold bind at 1, get. cbv beta iota.
    rewrite Hs. reflexivity. }
  unfold initialize. rewrite Hi. clear Hi.
  unfold try_catch. unfold bind at 1.
  rewrite (checkExistingTorConnection_found E s r props Hp Hf Hok Hj).
  cbv beta iota. rewrite Ht.
  unfold bind at 1, console_error, modify. cbv beta iota.
  unfold bind at 1, get. cbv beta iota.
  unfold bind at 1, new_SocksProxyAgent. cbn [config record]. rewrite Hp.
  cbv beta iota. unfold ret at 1. cbv beta iota.
  unfold bind at 1, modify. cbv beta iota.
  unfold bind at 1.
  rewrite updateConnectionStatus_blocked by exact Hs.
  unfold bind at 1, get. cbv beta iota.
  rewrite blocked_refresh_status. cbn [truthy negb].
  eexists. split; [reflexivity |].
  cbn. rewrite <- !app_assoc. repeat split. exact Hs.
Qed.

Lemma initialize_with_running_daemon_witness :
  let E := World.up in
  let s := World.fresh E in
  exists s',
    initialize E s =
      (Thrown (new_Error
                 "TOR initialization failed: Error: Failed to establish TOR connection"),
       s') /\
    agent s' = Some (mkAgent "socks5h://127.0.0.1:9050") /\
    isInitialized s' = false.
Proof.
  intros E s.
  destruct (initialize_with_running_daemon E s World.tor_reply
              [("IsTor", VBool true); ("IP", VStr "185.220.101.4")])
    as (s' & Hi & _ & Ha & _ & Hf); try reflexivity.
  exists s'. split; [exact Hi |]. split; [exact Ha | exact Hf].
Defined.

(** * The client from its construction on *)

(** ** Relations that every public method keeps *)

Section Calls.

Variable E : Env.
Variable R : State -> State -> Prop.
Hypothesis R_refl : forall s, R s s.
Hypothesis R_trans : forall s1 s2 s3, R s1 s2 -> R s2 s3 -> R s1 s3.
Hypothesis R_heap : forall A (m : M A), keeps same_heap m -> keeps R m.
Hypothesis R_check : keeps R (checkConnection E).
Hypothesis R_refresh : keeps R (updateConnectionStatus E).
Hypothesis R_status : keeps R (getStatus E).

Lemma keeps_initialize : keeps R (initialize E).
Proof.
  unfold initialize.
  frame_by R_refl R_trans;
    first [ solve [apply R_heap; auto with frame]
          | exact R_refresh
          | match goal with
            | |- R ?s (?f ?s) =>
                exact (R_heap _ (modify f) ltac:(intros ?; repeat split) s)
            end ].
Qed.

Lemma keeps_newCircuit : keeps R (newCircuit E).
Proof.
  intros s. rewrite newCircuit_fails. cbn [snd].
  exact (R_heap _ (console_error _) (heap_console_error _) s).
Qed.

Lemma keeps_call (o : Op) (s : State) : R s (call E o s).
Proof.
  destruct o; simpl; unfold after.
  - apply keeps_initialize.
  - apply R_heap, heap_request.
  - apply R_status.
  - apply keeps_newCircuit.
  - apply R_check.
  - apply R_heap, heap_cleanup.
Qed.

Lemma keeps_run (ops : list Op) : forall s, R s (run E ops s).
Proof.
  induction ops as [| o ops IH]; intros s; simpl; [apply R_refl |].
  eapply R_trans; [apply keeps_call | apply IH].
Qed.

End Calls.

(** ** A new client *)

Lemma constructor_status (E : Env) (cfg : Partial.TorConfig)
    (st : list TorConnectionStatus) (d : list Z) (h : History) :
  valid_ref (constructor E cfg st d h) /\
  status_of (constructor E cfg st d h) =
    mkStatus (VBool false) (VBool false) VUndefined VUndefined VUndefined None.
Proof.
  unfold valid_ref, status_of. cbn. split.
  - rewrite length_app. cbn. lia.
  - apply list_lookup_total_middle. reflexivity.
Qed.

(** ** The client's status object stays allocated *)

Lemma valid_kept_refl s : valid_kept s s.
Proof. intros H. exact H. Qed.

Lemma valid_kept_trans s1 s2 s3 : valid_kept s1 s2 -> valid_kept s2 s3 -> valid_kept s1 s3.
Proof. unfold valid_kept. auto. Qed.

Lemma heap_valid_kept {A} (m : M A) : keeps same_heap m -> keeps valid_kept m.
Proof.
  intros Hm s Hv. destruct (Hm s) as (Hr & Hs & _).
  unfold valid_ref. rewrite Hr, Hs. exact Hv.
Qed.

Lemma valid_checkConnection (E : Env) : keeps valid_kept (checkConnection E).
Proof.
  intros s Hv. destruct (shape_checkConnection E s) as (Hr & Hl).
  unfold valid_ref. rewrite Hr, Hl. exact Hv.
Qed.

Lemma valid_updateConnectionStatus (E : Env) : keeps valid_kept (updateConnectionStatus E).
Proof. intros s _. apply updateConnectionStatus_returns. Qed.

Lemma valid_getStatus (E : Env) : keeps valid_kept (getStatus E).
Proof.
  intros s _. destruct (getStatus_settled E s) as (r & s' & Hg & _ & Hv & _).
  rewrite Hg. exact Hv.
Qed.

Lemma valid_run (E : Env) (ops : list Op) (s : State) :
  valid_ref s -> valid_ref (run E ops s).
Proof.
  apply (keeps_run E valid_kept valid_kept_refl valid_kept_trans).
  - intros A m. apply heap_valid_kept.
  - apply valid_checkConnection.
  - apply valid_updateConnectionStatus.
  - apply valid_getStatus.
Qed.


(** ** The rotation timestamp is never set *)

Lemma time_getStatus (E : Env) : keeps time_kept (getStatus E).
Proof.
  intros s.
  destruct (getStatus_settled E s) as (r & s' & Hg & _ & _ & _ & _ & _ & Hs & Hd).
  destruct (time_updateConnectionStatus E s) as [Ht Hdt].
  fold (after (updateConnectionStatus E) s) in Ht, Hdt.
  rewrite Hg. cbn [snd]. split; [rewrite Hs; exact Ht | rewrite Hd; exact Hdt].
Qed.

Lemma time_run (E : Env) (ops : list Op) (s : State) : time_kept s (run E ops s).
Proof.
  apply (keeps_run E time_kept time_kept_refl time_kept_trans).
  - intros A m. apply heap_time_kept.
  - apply time_checkConnection.
  - apply time_updateConnectionStatus.
  - apply time_getStatus.
Qed.

(** What [getStatus] returns on a client whose status has no rotation
    timestamp. *)
Lemma getStatus_without_time (E : Env) (s : State) :
  lastCircuitTime (status_of s) = None ->
  exists r s',
    getStatus E s = (Returned r, s') /\
    r <> connectionStatus s' /\
    (r < length (statuses s'))%nat /\
    statuses s' !!! r = status_of s' /\
    lastCircuitTime (status_of s') = None /\
    dates s' = dates s.
Proof.
  intros Hn.
  destruct (getStatus_settled E s) as (r & s' & Hg & Hc & _ & Hr & Hne & _ & Hs & Hd).
  destruct (time_updateConnectionStatus E s) as [Ht Hdt].
  fold (after (updateConnectionStatus E) s) in Ht, Hdt.
  exists r, s'. repeat split; try assumption.
  - rewrite Hs, Ht. exact Hn.
  - rewrite Hd. exact Hdt.
Qed.

(** X17 — No rotation timestamp is ever recorded: on a client from its
    construction on, after any sequence of public calls, [newCircuit]
    included, [lastCircuitTime] is [undefined] in the client's status and in
    the status [getStatus] returns, and no [Date] object has been created
    or changed. *)
Theorem rotation_time_never_set (E : Env) (cfg : Partial.TorConfig)
    (st : list TorConnectionStatus) (d : list Z) (h : History) (ops : list Op) :
  let s := run E ops (constructor E cfg st d h) in
  lastCircuitTime (status_of s) = None /\
  dates s = d /\
  exists r s',
    getStatus E s = (Returned r, s') /\
    lastCircuitTime (statuses s' !!! r) = None /\
    dates s' = d.
Proof.
  intros s.
  destruct (time_run E ops (constructor E cfg st d h)) as [Ht Hd]. fold s in Ht, Hd.
  destruct (constructor_status E cfg st d h) as [_ Hc]. rewrite Hc in Ht.
  split; [exact Ht |]. split; [exact Hd |].
  destruct (getStatus_without_time E s Ht) as (r & s' & Hg & _ & _ & Hcp & Hn & Hds).
  exists r, s'. split; [exact Hg |]. split; [rewrite Hcp; exact Hn |].
  rewrite Hds. exact Hd.
Qed.

(** ** What a caller does with a returned status *)

Lemma mutate_keeps (r : nat) (m : Mutation) (s : State) :
  r <> connectionStatus s ->
  connectionStatus (mutate r m s) = connectionStatus s /\
  status_of (mutate r m s) = status_of s.
Proof.
  intros Hne. destruct m as [f | ms]; cbn [mutate].
  - split; [reflexivity |]. unfold status_of. cbn.
    apply list_lookup_total_alter_ne. exact Hne.
  - destruct (lastCircuitTime (statuses s !!! r)); split; reflexivity.
Qed.

Lemma mutate_all_keeps (r : nat) (ms : list Mutation) : forall s,
  r <> connectionStatus s ->
  status_of (mutate_all r ms s) = status_of s.
Proof.
  induction ms as [| m ms IH]; intros s Hne; cbn [mutate_all]; [reflexivity |].
  destruct (mutate_keeps r m s Hne) as [Hc Hs].
  rewrite IH by (rewrite Hc; exact Hne). exact Hs.
Qed.

Lemma observe_without_time (s : State) :
  lastCircuitTime (status_of s) = None -> observe s = (status_of s, None).
Proof. intros H. unfold observe. rewrite H. reflexivity. Qed.

(** C7 — On a client from its construction on, after any sequence of
    public calls, [getStatus] returns a new object, distinct from the
    client's own status object, with the same properties.  Whatever a caller
    then does to the returned object, assigning to its properties or calling
    [setTime] through its [lastCircuitTime], any number of times, what the
    client's own status shows stays as it was.  (The copy is shallow, but
    the one property that holds an object, [lastCircuitTime], is never
    set.) *)
Theorem getStatus_copy_independent (E : Env) (cfg : Partial.TorConfig)
    (st : list TorConnectionStatus) (d : list Z) (h : History) (ops : list Op) :
  let s := run E ops (constructor E cfg st d h) in
  exists r s',
    getStatus E s = (Returned r, s') /\
    r <> connectionStatus s' /\
    statuses s' !! r = Some (status_of s') /\
    returned_status_independent r s'.
Proof.
  intros s.
  destruct (time_run E ops (constructor E cfg st d h)) as [Ht _]. fold s in Ht.
  destruct (constructor_status E cfg st d h) as [_ Hc]. rewrite Hc in Ht.
  destruct (getStatus_without_time E s Ht) as (r & s' & Hg & Hne & Hr & Hcp & Hn & _).
  exists r, s'. split; [exact Hg |]. split; [exact Hne |]. split.
  - rewrite <- Hcp. apply list_lookup_lookup_total_lt. exact Hr.
  - intros ms. pose proof (mutate_all_keeps r ms s' Hne) as Hs.
    rewrite !observe_without_time by (rewrite ?Hs; exact Hn).
    rewrite Hs. reflexivity.
Qed.

(** ** The version string is never set *)

Lemma version_kept_refl s : version_kept s s.
Proof. reflexivity. Qed.

Lemma version_kept_trans s1 s2 s3 :
  version_kept s1 s2 -> version_kept s2 s3 -> version_kept s1 s3.
Proof. unfold version_kept. congruence. Qed.

Lemma heap_version_kept {A} (m : M A) : keeps same_heap m -> keeps version_kept m.
Proof.
  intros Hm s. destruct (Hm s) as (Hr & Hs & _).
  unfold version_kept, status_of. rewrite Hr, Hs. reflexivity.
Qed.

Lemma version_assign_status (f : TorConnectionStatus -> TorConnectionStatus) :
  (forall o, torVersion (f o) = torVersion o) ->
  keeps version_kept (assign_status f).
Proof.
  intros Hf s. unfold version_kept, status_of. cbn.
  rewrite list_lookup_total_alter.
  case_decide; [apply Hf | reflexivity].
Qed.

Lemma version_replace_status v s : version_kept s (replace_status v s).
Proof.
  unfold version_kept, status_of at 1, replace_status.
  cbn [statuses connectionStatus set_statuses set_connectionStatus].
  rewrite list_lookup_total_middle by reflexivity. reflexivity.
Qed.

Lemma version_checkConnection (E : Env) : keeps version_kept (checkConnection E).
Proof.
  unfold checkConnection.
  frame_by version_kept_refl version_kept_trans;
    first [ solve [apply heap_version_kept; auto with frame]
          | solve [apply version_assign_status; reflexivity] ].
Qed.

Lemma version_updateConnectionStatus (E : Env) :
  keeps version_kept (updateConnectionStatus E).
Proof.
  apply (keeps_updateConnectionStatus E version_kept version_kept_trans).
  - apply version_checkConnection.
  - apply version_replace_status.
Qed.

Lemma version_getStatus (E : Env) : keeps version_kept (getStatus E).
Proof.
  intros s.
  destruct (getStatus_settled E s) as (r & s' & Hg & _ & _ & _ & _ & _ & Hs & _).
  rewrite Hg. cbn [snd]. unfold version_kept. rewrite Hs.
  apply version_updateConnectionStatus.
Qed.

Lemma version_run (E : Env) (ops : list Op) (s : State) :
  version_kept s (run E ops s).
Proof.
  apply (keeps_run E version_kept version_kept_refl version_kept_trans).
  - intros A m. apply heap_version_kept.
  - apply version_checkConnection.
  - apply version_updateConnectionStatus.
  - apply version_getStatus.
Qed.

(** X26 — The version query of a refresh never succeeds, so a refresh
    leaves [torVersion] as it was, in every state and whatever the
    connectivity check found; on a client from its construction on,
    [torVersion] is [undefined] after any sequence of public calls, in the
    client's status and in the status [getStatus] returns. *)
Theorem torVersion_never_set (E : Env) :
  (forall s,
     torVersion (status_of (after (updateConnectionStatus E) s))
     = torVersion (status_of s)) /\
  forall (cfg : Partial.TorConfig) (st : list TorConnectionStatus) (d : list Z)
         (h : History) (ops : list Op),
    let s := run E ops (constructor E cfg st d h) in
    torVersion (status_of s) = VUndefined /\
    exists r s',
      getStatus E s = (Returned r, s') /\
      torVersion (statuses s' !!! r) = VUndefined.
Proof.
  split; [intros s; apply version_updateConnectionStatus |].
  intros cfg st d h ops s.
  pose proof (version_run E ops (constructor E cfg st d h)) as Hv.
  fold s in Hv. unfold version_kept in Hv.
  destruct (constructor_status E cfg st d h) as [_ Hc]. rewrite Hc in Hv.
  split; [exact Hv |].
  destruct (getStatus_settled E s) as (r & s' & Hg & Hcp & _ & _ & _ & _ & Hs & _).
  exists r, s'. split; [exact Hg |]. rewrite Hcp, Hs.
  pose proof (version_updateConnectionStatus E s) as Hu.
  unfold version_kept in Hu. unfold after. rewrite Hu. exact Hv.
Qed.
